(** * webrtc-from-chat/chat-server.js: the signalling and chat relay

    A shallow embedding of the WebSocket part of [chat-server.js]: the
    connection registry [connectionArray], the counters [nextID] and
    [appendToMakeUnique], and the three event handlers (request, message,
    close), followed by the properties of the relay. *)

From Equations Require Import Equations.
From Equations.Prop Require Import Logic.
From Stdlib Require Import Ascii String.
From Stdlib Require Import Floats.SpecFloat.
From stdpp Require Import base decidable option numbers list strings pretty.
From stdpp Require Import sorting gmap.

Local Open Scope Z_scope.

(** ** Chat text sanitisation

    [msg.text.replace(/(<([^>]+)>)/gi, "")].  The pattern has no letters,
    so the [i] flag changes nothing; [g] makes [replace] walk the text from
    left to right, deleting every match and resuming right after it.  A
    JavaScript string is a sequence of code units; the only two that the
    pattern tells apart are the two angle brackets. *)
Module Sanitize.

Definition lt_char : ascii := "<"%char.
Definition gt_char : ascii := ">"%char.

(** The text that follows the first [>] of [s]. *)
Fixpoint after_gt (s : string) : option string :=
  match s with
  | EmptyString => None
  | String c r => if Ascii.eqb c gt_char then Some r else after_gt r
  end.

(** One attempt to match [<([^>]+)>] at the very start of [s]; on success
    the text after the match.  [[^>]+] is greedy and takes every code unit
    up to the next [>]; it needs at least one. *)
Definition match_tag (s : string) : option string :=
  match s with
  | String c (String d r) =>
      if Ascii.eqb c lt_char
      then if Ascii.eqb d gt_char then None else after_gt r
      else None
  | _ => None
  end.

(** The global replace with the empty string: try a match at the current
    position; delete it and resume after it, or keep one code unit and move
    on.  A match ends inside the text it was tried on, hence termination. *)
Equations? strip (s : string) : string by wf (String.length s) lt :=
  strip EmptyString := EmptyString;
  strip (String c r) with inspect (match_tag (String c r)) => {
    | exist _ (Some rest) _ := strip rest;
    | exist _ None _ := String c (strip r) }.
Proof.
  - assert (∀ t u, after_gt t = Some u → (String.length u < String.length t)%nat)
      as Hafter.
    { induction t as [|a t IH]; intros u; simpl; [done|].
      destruct (Ascii.eqb a gt_char); [intros [= ->]; lia|].
      intros Hu. apply IH in Hu. lia. }
    destruct r as [|d r]; simpl in *; [done|].
    destruct (Ascii.eqb c lt_char); [|done].
    destruct (Ascii.eqb d gt_char); [done|].
    match goal with H : after_gt _ = Some _ |- _ => apply Hafter in H end. lia.
  - simpl; lia.
Qed.

End Sanitize.

(** ** JavaScript values and wire messages

    The values that reach a username: [undefined] (a connection that has
    not been named, or a request without a [name]) and whatever
    [JSON.parse] can put in [msg.name]: [null], a boolean, a number (an
    IEEE 754 double, as a [spec_float] of precision 53), a string, an array
    or an object.  Of an array or object the embedding keeps its JSON text
    and the string that [+] converts it to.  The doubles that [JSON.parse]
    builds are the [spec_float]s that are [valid_binary 53 1024]; nothing
    below needs that restriction. *)
Inductive jsval : Type :=
| JUndefined
| JNull
| JBool (b : bool)
| JNumber (x : spec_float)
| JString (s : string)
| JObject (source toString : string).

(** [NaN], what [undefined + appendToMakeUnique] evaluates to. *)
Notation JNaN := (JNumber S754_nan).

(** [Infinity], what [JSON.parse] makes of [1e999]. *)
Notation JInfinity := (JNumber (S754_infinity false)).

Global Instance spec_float_eq_dec : EqDecision spec_float.
Proof. solve_decision. Defined.

Global Instance jsval_eq_dec : EqDecision jsval.
Proof. solve_decision. Defined.

(** [a === b].  Numbers compare as doubles: [NaN] equals nothing and the
    two zeros are equal.  An array or object equals only itself, and the
    server never compares one with itself: of the two values it compares,
    one has just been built by [JSON.parse] or by [+]. *)
Definition strict_eq (a b : jsval) : bool :=
  match a, b with
  | JUndefined, JUndefined => true
  | JNull, JNull => true
  | JBool x, JBool y => bool_decide (x = y)
  | JNumber x, JNumber y => SFeqb x y
  | JString s, JString t => bool_decide (s = t)
  | _, _ => false
  end.

(** The double that holds the integer [k], exactly when [|k| <= 2^53]. *)
Definition of_Z (k : Z) : spec_float := binary_normalize 53 1024 k 0 false.

(** The sum of two doubles. *)
Definition number_add (x y : spec_float) : spec_float := SFadd 53 1024 x y.

(** [x++] on a variable that holds the integer [z]: exact below 2^53; at
    2^53 the sum [z + 1] rounds back to [z] and the variable stops moving. *)
Definition js_incr (z : Z) : Z := if z <? 2 ^ 53 then z + 1 else z.
Global Arguments js_incr : simpl never.

(** [a + k] for a counter [k], an integer between 1 and 2^53, which
    prints in plain decimal: a string, array or object is concatenated with
    it; anything else is converted to a number and added to it. *)
Definition js_add (a : jsval) (k : Z) : jsval :=
  match a with
  | JString s => JString (s +:+ pretty k)
  | JObject _ toString => JString (toString +:+ pretty k)
  | JNumber x => JNumber (number_add x (of_Z k))
  | JUndefined => JNumber (number_add S754_nan (of_Z k))
  | JNull => JNumber (number_add (S754_zero false) (of_Z k))
  | JBool b => JNumber (number_add (of_Z (if b then 1 else 0)) (of_Z k))
  end.

(** The names to which [+] adds a number: [null], booleans and numbers. *)
Definition numeric (a : jsval) : bool :=
  match a with
  | JNull | JBool _ | JNumber _ => true
  | JUndefined | JString _ | JObject _ _ => false
  end.

(** The object a client sends: the properties the server reads, each absent
    ([None], [JUndefined]) or present, and the rest of the object, which the
    server never looks at. *)
Record message_object : Type := MessageObject {
  msg_id : option Z;
  msg_type : option string;
  msg_name : jsval;
  msg_text : option string;
  msg_target : option string;
  msg_rest : string
}.

(** What [JSON.parse] returns when it returns: [null], an object, or a value
    (number, string, boolean, array) on which [id], [type] and [target] all
    read as [undefined]. *)
Inductive json : Type :=
| JsonNull
| JsonOther (source : string)
| JsonObject (o : message_object).

(** A WebSocket message as the library delivers it; for a text message
    [utf8Data] comes with the outcome of [JSON.parse] on it, which is the
    runtime's: [None] when it is not valid JSON. *)
Inductive ws_message : Type :=
| BinaryMessage
| Utf8Message (utf8Data : string) (parsed : option json).

(** What the server writes to a connection, before [JSON.stringify]. *)
Inductive frame : Type :=
| IdFrame (id : Z)
| UserListFrame (users : list jsval)
| RejectUsernameFrame (id : option Z) (name : jsval)
| RelayFrame (msg : json).

Global Instance message_object_eq_dec : EqDecision message_object.
Proof. solve_decision. Defined.
Global Instance json_eq_dec : EqDecision json.
Proof. solve_decision. Defined.
Global Instance frame_eq_dec : EqDecision frame.
Proof. solve_decision. Defined.

(** ** The server state *)

Record connection : Type := Connection {
  clientID : Z;
  username : jsval;
  connected : bool;
  remoteAddress : string
}.

Global Instance connection_eq_dec : EqDecision connection.
Proof. solve_decision. Defined.

Definition set_username (name : jsval) (c : connection) : connection :=
  Connection (clientID c) name (connected c) (remoteAddress c).

Definition set_connected (b : bool) (c : connection) : connection :=
  Connection (clientID c) (username c) b (remoteAddress c).

(** The three module-level variables, and the two output channels: the
    frames written to connections (receiver's [clientID] and frame, oldest
    first) and the lines written to the console (without the time stamp). *)
Record server : Type := Server {
  connectionArray : list connection;
  nextID : Z;
  appendToMakeUnique : Z;
  sent : list (Z * frame);
  logged : list string
}.

(** [nextID = Date.now()], a whole number of milliseconds. *)
Definition initial (now : Z) : server := Server [] now 1 [] [].

(** The time values a [Date] can hold. *)
Definition time_value (now : Z) : Prop :=
  - 8640000000000000 ≤ now ≤ 8640000000000000.

(** ** Handlers run in a state monad with exceptions

    A handler either returns, throws (nothing in the file catches), or, for
    the model of the [while] loop, runs out of fuel.  What it did before
    throwing stays done. *)
Inductive error : Type := SyntaxError | TypeError.

Inductive completion (A : Type) : Type :=
| Normal (a : A)
| Throw (e : error)
| OutOfFuel.
Arguments Normal {A} a.
Arguments Throw {A} e.
Arguments OutOfFuel {A}.

Definition M (A : Type) : Type := server → completion A * server.

Global Instance M_ret : MRet M := λ A a s, (Normal a, s).

Global Instance M_bind : MBind M := λ A B k m s,
  match m s with
  | (Normal a, s') => k a s'
  | (Throw e, s') => (Throw e, s')
  | (OutOfFuel, s') => (OutOfFuel, s')
  end.

Definition throw {A} (e : error) : M A := λ s, (Throw e, s).

Definition get : M server := λ s, (Normal s, s).

Definition log (text : string) : M unit := λ s,
  (Normal tt,
   Server (connectionArray s) (nextID s) (appendToMakeUnique s) (sent s)
          (logged s ++ [text])).

(** [connection.send(str)] and [connection.sendUTF(str)] *)
Definition sendUTF (to : connection) (f : frame) : M unit := λ s,
  (Normal tt,
   Server (connectionArray s) (nextID s) (appendToMakeUnique s)
          (sent s ++ [(clientID to, f)]) (logged s)).

Definition set_connectionArray (ca : list connection) : M unit := λ s,
  (Normal tt,
   Server ca (nextID s) (appendToMakeUnique s) (sent s) (logged s)).

Definition originIsAllowed (origin : string) : bool := true.

(** ** Helpers of [chat-server.js] *)

(** The [for] loop with [break] of [isUsernameUnique]. *)
Fixpoint isUsernameUnique_loop (rest : list connection) (name : jsval) : bool :=
  match rest with
  | [] => true
  | c :: rest' =>
      if strict_eq (username c) name then false
      else isUsernameUnique_loop rest' name
  end.

Definition isUsernameUnique (name : jsval) : M bool :=
  s ← get; mret (isUsernameUnique_loop (connectionArray s) name).

(** [connectionArray.find((conn) => conn.username === target).send(msgString)]:
    [find] gives [undefined] when no connection matches, and reading [send]
    from it is a [TypeError]. *)
Definition sendToOneUser (target : string) (msgString : frame) : M unit :=
  s ← get;
  match list_find (λ conn, strict_eq (username conn) (JString target))
                  (connectionArray s) with
  | Some (_, conn) => sendUTF conn msgString
  | None => throw TypeError
  end.

(** The connection object with that [clientID], as its place in
    [connectionArray] together with its current contents; [None] is the
    source's [null].  An [id] that is absent is [undefined] and equals no
    [clientID]. *)
Definition getConnectionForID (id : option Z) : M (option (nat * connection)) :=
  s ← get;
  mret (list_find (λ c, Some (clientID c) = id) (connectionArray s)).

Definition makeUserListMessage : M frame :=
  s ← get; mret (UserListFrame (username <$> connectionArray s)).

(** The two [for] loops that write one string to every connection. *)
Fixpoint send_each (rest : list connection) (str : frame) : M unit :=
  match rest with
  | [] => mret tt
  | c :: rest' => sendUTF c str;; send_each rest' str
  end.

Definition sendUserListToAll : M unit :=
  userListMsg ← makeUserListMessage;
  s ← get;
  send_each (connectionArray s) userListMsg.

(** ** The [request] handler *)

Definition on_request (origin address : string) : M unit :=
  if negb (originIsAllowed origin) then
    log ("Connection from " +:+ origin +:+ " rejected.")
  else
    log ("Connection accepted from " +:+ address +:+ ".");;
    s ← get;
    let connection := Connection (nextID s) JUndefined true address in
    (λ s, (Normal tt,
           Server (connectionArray s ++ [connection]) (js_incr (nextID s))
                  (appendToMakeUnique s) (sent s) (logged s)));;
    sendUTF connection (IdFrame (clientID connection)).

(** ** The [message] handler *)

(** [JSON.parse(message.utf8Data)] *)
Definition JSON_parse (parsed : option json) : M json :=
  match parsed with
  | Some v => mret v
  | None => throw SyntaxError
  end.

(** [msg.id]: reading a property of [null] throws. *)
Definition read_id (msg : json) : M (option Z) :=
  match msg with
  | JsonNull => throw TypeError
  | JsonOther _ => mret None
  | JsonObject o => mret (msg_id o)
  end.

Definition read_target (msg : json) : option string :=
  match msg with
  | JsonObject o => msg_target o
  | _ => None
  end.

(** Reading a property of a value ([connect.username], [connect.sendUTF],
    [msg.text.replace]): a [TypeError] when the value is [null] or
    [undefined]. *)
Definition deref {A} (connect : option A) : M A :=
  match connect with
  | Some c => mret c
  | None => throw TypeError
  end.

(** [appendToMakeUnique++] *)
Definition incr_appendToMakeUnique : M unit := λ s,
  (Normal tt,
   Server (connectionArray s) (nextID s) (js_incr (appendToMakeUnique s))
          (sent s) (logged s)).

(** [while (!isUsernameUnique(msg.name)) { ... }], with [msg.name] and
    [nameChanged] as accumulators.  [fuel] bounds the number of times the
    loop condition is evaluated. *)
Fixpoint username_loop (fuel : nat) (origName name : jsval) (nameChanged : bool)
  : M (jsval * bool) :=
  match fuel with
  | O => λ s, (OutOfFuel, s)
  | S fuel' =>
      unique ← isUsernameUnique name;
      if unique : bool then mret (name, nameChanged)
      else
        s ← get;
        let name' := js_add origName (appendToMakeUnique s) in
        incr_appendToMakeUnique;;
        username_loop fuel' origName name' true
  end.

(** [connect.username = msg.name], [connect] being the object at place [i]
    of [connectionArray]. *)
Definition assign_username (i : nat) (name : jsval) : M unit :=
  s ← get;
  set_connectionArray (alter (set_username name) i (connectionArray s)).

(** The [if (sendToClients)] block. *)
Definition send_to_clients (msg : json) : M unit :=
  let msgString := RelayFrame msg in
  match read_target msg with
  | Some target =>
      if negb (bool_decide (target = "")) && negb (String.length target =? 0)%nat
      then sendToOneUser target msgString
      else s ← get; send_each (connectionArray s) msgString
  | None => s ← get; send_each (connectionArray s) msgString
  end.

Definition on_message (fuel : nat) (message : ws_message) : M unit :=
  match message with
  | BinaryMessage => mret tt
  | Utf8Message utf8Data parsed =>
      log ("Received Message: " +:+ utf8Data);;
      msg ← JSON_parse parsed;
      id ← read_id msg;
      connect ← getConnectionForID id;
      match msg with
      | JsonObject o =>
          if bool_decide (msg_type o = Some "message") then
            c ← deref connect;
            text ← deref (msg_text o);
            send_to_clients
              (JsonObject (MessageObject (msg_id o) (msg_type o) (username c.2)
                             (Some (Sanitize.strip text)) (msg_target o) (msg_rest o)))
          else if bool_decide (msg_type o = Some "username") then
            let origName := msg_name o in
            '(name, nameChanged) ← username_loop fuel origName origName false;
            (if nameChanged : bool then
               c ← deref connect;
               sendUTF c.2 (RejectUsernameFrame (msg_id o) name)
             else mret tt);;
            c ← deref connect;
            assign_username c.1 name;;
            sendUserListToAll
          else send_to_clients msg
      | _ => send_to_clients msg
      end
  end.

(** The handler as [connection.on("message", ...)] registers it for the
    connection with that [clientID]: the function is the same for every
    connection, and its body never reads the connection it was registered
    for. *)
Definition listener (connection : Z) (fuel : nat) (message : ws_message) : M unit :=
  on_message fuel message.

(** ** The [close] handler *)

Definition close_log_message (address : string) (reason : Z)
    (description : option string) : string :=
  let logMessage := "Connection closed: " +:+ address +:+ " (" +:+ pretty reason in
  let logMessage :=
    match description with
    | Some d => if negb (String.length d =? 0)%nat
                then logMessage +:+ ": " +:+ d else logMessage
    | None => logMessage
    end in
  logMessage +:+ ")".

Definition on_close (address : string) (reason : Z) (description : option string)
  : M unit :=
  s ← get;
  set_connectionArray (filter (λ el, connected el) (connectionArray s));;
  sendUserListToAll;;
  log (close_log_message address reason description).

(** ** Events

    What the WebSocket library does to the server: it announces a
    connection, delivers a message, or reports a connection closed.  The
    library clears [connected] on a connection object before it emits
    [close] for it, and may clear it some events earlier (when the peer
    starts the closing handshake); [Lost] is that earlier moment.  With
    [close] the library passes its [closeReasonCode] and
    [closeDescription]; the latter is [null] ([None]) until the library
    sets it to a string. *)
Inductive event : Type :=
| Request (origin address : string)
| Message (message : ws_message)
| Lost (id : Z)
| Close (id : Z) (address : string) (reason : Z) (description : option string).

Definition mark_down (id : Z) (c : connection) : connection :=
  if bool_decide (clientID c = id) then set_connected false c else c.

Definition transport_down (id : Z) : M unit :=
  s ← get;
  set_connectionArray (mark_down id <$> connectionArray s).

Definition step (fuel : nat) (e : event) : M unit :=
  match e with
  | Request origin address => on_request origin address
  | Message message => on_message fuel message
  | Lost id => transport_down id
  | Close id address reason description =>
      transport_down id;; on_close address reason description
  end.

(** A run of the event loop; an exception that no handler catches ends it. *)
Fixpoint run (fuel : nat) (events : list event) : M unit :=
  match events with
  | [] => mret tt
  | e :: events' => step fuel e;; run fuel events'
  end.

(** The states the server can be in between two events. *)
Inductive reachable : server → Prop :=
| reachable_initial now : time_value now → reachable (initial now)
| reachable_step s e fuel s' :
    reachable s → step fuel e s = (Normal tt, s') → reachable s'.

(** ** Vocabulary of the properties *)

(** What writing [f] to each connection of [rest] adds to [sent]. *)
Definition deliveries (rest : list connection) (f : frame) : list (Z * frame) :=
  (λ c, (clientID c, f)) <$> rest.

(** The console after the handler has logged the message it received. *)
Definition received (s : server) (utf8Data : string) : list string :=
  logged s ++ ["Received Message: " +:+ utf8Data].

(** The state after [j] rounds of the loop body, as long as the counter
    stays below 2^53. *)
Definition bump (j : nat) (s : server) : server :=
  Server (connectionArray s) (nextID s) (appendToMakeUnique s + Z.of_nat j)
         (sent s) (logged s).

(** The name the loop holds after [j] rounds, as long as the counter stays
    below 2^53: the original name with the counter value of round [j - 1]
    added to it. *)
Definition candidate (origName name : jsval) (s : server) (j : nat) : jsval :=
  match j with
  | O => name
  | S j' => js_add origName (appendToMakeUnique s + Z.of_nat j')
  end.

(** The username of a connection when it is a string. *)
Definition display_name (c : connection) : option string :=
  match username c with
  | JString t => Some t
  | _ => None
  end.

(** Between two events: the usernames that are strings are pairwise
    different; and while [nextID] has not reached 2^53, so are the
    [clientID]s, which all lie below [nextID]. *)
Record invariant (s : server) : Prop := Invariant {
  inv_names : NoDup (omap display_name (connectionArray s));
  inv_ids : nextID s < 2 ^ 53 → NoDup (clientID <$> connectionArray s);
  inv_fresh :
    nextID s < 2 ^ 53 →
    Forall (λ id, id < nextID s) (clientID <$> connectionArray s)
}.

(** Two connections whose usernames [===] equates have no username yet. *)
Definition apart (c c' : connection) : Prop :=
  strict_eq (username c) (username c') = true →
  username c = JUndefined ∧ username c' = JUndefined.

(** The display name a message is directed to: the [target] property of an
    object, when it has one that is not the empty string. *)
Definition directed_to (msg : json) : option string :=
  match msg with
  | JsonObject o =>
      match msg_target o with
      | Some target => if bool_decide (target = "") then None else Some target
      | None => None
      end
  | JsonNull | JsonOther _ => None
  end.

(** [s] with [more] written to connections after what was already sent. *)
Definition sending (s : server) (more : list (Z * frame)) : server :=
  Server (connectionArray s) (nextID s) (appendToMakeUnique s)
         (sent s ++ more) (logged s).

(** [s] after [log (text)]. *)
Definition logging (s : server) (text : string) : server :=
  Server (connectionArray s) (nextID s) (appendToMakeUnique s) (sent s)
         (logged s ++ [text]).

(** A message that reaches the [if (sendToClients)] block, and the form in
    which it is relayed: a value that is no object, an object of a type the
    server does not handle, or a chat message from a registered connection
    with a [text], which gets the sender's name and the sanitised text. *)
Inductive relayed_as (s : server) : json → json → Prop :=
| relayed_other src :
    relayed_as s (JsonOther src) (JsonOther src)
| relayed_opaque o :
    msg_type o ≠ Some "message" → msg_type o ≠ Some "username" →
    relayed_as s (JsonObject o) (JsonObject o)
| relayed_chat o i c text :
    msg_type o = Some "message" →
    list_find (λ c, Some (clientID c) = msg_id o) (connectionArray s) = Some (i, c) →
    msg_text o = Some text →
    relayed_as s (JsonObject o)
      (JsonObject (MessageObject (msg_id o) (msg_type o) (username c)
                     (Some (Sanitize.strip text)) (msg_target o) (msg_rest o))).

(** Frames that do not have the expected shape, and what the handler
    throws on them: text that is not JSON, the value [null], a chat message
    whose [id] is the [clientID] of no connection, and a chat message
    without a [text]. *)
Inductive malformed (s : server) : option json → error → Prop :=
| malformed_syntax :
    malformed s None SyntaxError
| malformed_null :
    malformed s (Some JsonNull) TypeError
| malformed_id o :
    msg_type o = Some "message" →
    list_find (λ c, Some (clientID c) = msg_id o) (connectionArray s) = None →
    malformed s (Some (JsonObject o)) TypeError
| malformed_text o :
    msg_type o = Some "message" →
    msg_text o = None →
    malformed s (Some (JsonObject o)) TypeError.

(** Values that have nothing of a message and are relayed all the same: a
    number, string, boolean or array, and an object without a [target]
    whose [type] is missing or is neither [message] nor [username]. *)
Inductive passed_through : json → Prop :=
| passed_other src :
    passed_through (JsonOther src)
| passed_object o :
    msg_type o ≠ Some "message" → msg_type o ≠ Some "username" →
    directed_to (JsonObject o) = None →
    passed_through (JsonObject o).

(** The events after which the server sends the user list: a close, and a
    username message whose [id] is the [clientID] of a connection and whose
    [name] is not [null], a boolean or a number, handled while the suffix
    counter has room below 2^53 for one retry per connection. *)
Inductive roster_event (s : server) : event → Prop :=
| roster_close id address reason description :
    roster_event s (Close id address reason description)
| roster_username utf8Data o i c :
    msg_type o = Some "username" →
    list_find (λ c, Some (clientID c) = msg_id o) (connectionArray s) = Some (i, c) →
    numeric (msg_name o) = false →
    appendToMakeUnique s + Z.of_nat (length (connectionArray s)) ≤ 2 ^ 53 →
    roster_event s (Message (Utf8Message utf8Data (Some (JsonObject o)))).

(** The user list as every connection of the registry of [s] would get it. *)
Definition roster (s : server) : list (Z * frame) :=
  deliveries (connectionArray s) (UserListFrame (username <$> connectionArray s)).

(** ** Example frames and runs *)

Definition quoted (t : string) : string :=
  let q := String (Ascii.ascii_of_nat 34) "" in q +:+ t +:+ q.

Definition member (key value : string) : list string :=
  [quoted key +:+ ":" +:+ value].

(** The text of a message, as [JSON.stringify] in a client writes it when no
    string needs an escape.  A [name] that is a number is left out here;
    [numeric_username_request] takes its digits as they are. *)
Definition json_text (v : json) : string :=
  match v with
  | JsonNull => "null"
  | JsonOther source => source
  | JsonObject o =>
      let members :=
        from_option (λ id, member "id" (pretty id)) [] (msg_id o)
        ++ from_option (λ t, member "type" (quoted t)) [] (msg_type o)
        ++ match msg_name o with
           | JString n => member "name" (quoted n)
           | JObject source _ => member "name" source
           | JNull => member "name" "null"
           | JBool b => member "name" (if b then "true" else "false")
           | JNumber _ | JUndefined => []
           end
        ++ from_option (λ t, member "text" (quoted t)) [] (msg_text o)
        ++ from_option (λ t, member "target" (quoted t)) [] (msg_target o)
        ++ match msg_rest o with "" => [] | rest => [rest] end in
      "{" +:+ String.concat "," members +:+ "}"
  end.

(** A text frame that carries [v]. *)
Definition wire (v : json) : ws_message := Utf8Message (json_text v) (Some v).

Definition username_object (id : Z) (name : string) : message_object :=
  MessageObject (Some id) (Some "username") (JString name) None None "".

Definition username_request (id : Z) (name : string) : json :=
  JsonObject (username_object id name).

Definition chat (id : Z) (text : string) (target : option string) : json :=
  JsonObject (MessageObject (Some id) (Some "message") JUndefined (Some text) target "").

Definition signal (id : Z) (type : string) (target : option string) : json :=
  JsonObject (MessageObject (Some id) (Some type) JUndefined None target "").

(** A username request whose [name] is a number: the digits as the client
    wrote them, and the double that [JSON.parse] reads from them. *)
Definition numeric_username_request (id : Z) (digits : string) (x : spec_float)
  : ws_message :=
  Utf8Message
    ("{" +:+ String.concat "," (member "id" (pretty id)
                                  ++ member "type" (quoted "username")
                                  ++ member "name" digits) +:+ "}")
    (Some (JsonObject (MessageObject (Some id) (Some "username") (JNumber x)
                         None None ""))).

(** A username request without a [name]. *)
Definition nameless_request (id : Z) : json :=
  JsonObject (MessageObject (Some id) (Some "username") JUndefined None None "").

(** A username request whose [name] is the empty array. *)
Definition array_request (id : Z) : json :=
  JsonObject (MessageObject (Some id) (Some "username") (JObject "[]" "")
                None None "").

(** Alice and Bob both ask for the name alice. *)
Definition two_users : list event :=
  [Request "http://localhost:3000" "::1";
   Message (wire (username_request 1 "alice"));
   Request "http://localhost:3000" "::1";
   Message (wire (username_request 2 "alice"))].

Definition two_users_state : server := (run 3 two_users (initial 1)).2.

(** One user, named bob. *)
Definition one_user : list event :=
  [Request "http://localhost:3000" "::1";
   Message (wire (username_request 1 "bob"))].

Definition one_user_state : server := (run 2 one_user (initial 1)).2.

(** ** The properties as the specification words them

    Used to state where the server departs from them. *)

(** Every connection has a display name, a non-empty string, and no two
    connections have the same. *)
Definition names_distinct_nonempty (s : server) : Prop :=
  NoDup (username <$> connectionArray s) ∧
  Forall (λ c, ∃ t, username c = JString t ∧ t ≠ "") (connectionArray s).

(** The handler returns, having written to no connection and left the
    registry as it was. *)
Definition silently_dropped (fuel : nat) (message : ws_message) (s : server) : Prop :=
  ∃ s', on_message fuel message s = (Normal tt, s') ∧
        sent s' = sent s ∧ connectionArray s' = connectionArray s.

(** The name of the connection at place [i] after the request differs from
    the requested one only if that is the empty string or the name of a
    connection other than the requester [c]. *)
Definition renamed_only_if_empty_or_held_by_other
    (fuel : nat) (o : message_object) (i : nat) (c : connection) (s : server) : Prop :=
  ∀ s' c',
    on_message fuel (wire (JsonObject o)) s = (Normal tt, s') →
    connectionArray s' !! i = Some c' →
    username c' ≠ msg_name o →
    msg_name o = JString "" ∨
    ∃ other, other ∈ connectionArray s ∧ clientID other ≠ clientID c ∧
             username other = msg_name o.

(** A [rejectusername] message written while the connection [sender]
    handles a message goes to that connection. *)
Definition notice_to_sender_alone (sender : Z) (fuel : nat) (message : ws_message)
    (s : server) : Prop :=
  ∀ s' to id name,
    listener sender fuel message s = (Normal tt, s') →
    (to, RejectUsernameFrame id name) ∈ drop (length (sent s)) (sent s') →
    to = sender.


(** After the event every connection of the registry has been sent the
    current user list. *)
Definition roster_sent (fuel : nat) (e : event) (s : server) : Prop :=
  ∃ s', step fuel e s = (Normal tt, s') ∧
        ∀ c, c ∈ connectionArray s' →
             (clientID c, UserListFrame (username <$> connectionArray s'))
               ∈ drop (length (sent s)) (sent s').

(** A close for a connection that is not in the registry changes nothing. *)
Definition close_of_absent_is_noop (id : Z) (s : server) : Prop :=
  id ∉ clientID <$> connectionArray s →
  ∀ fuel address reason description s',
    step fuel (Close id address reason description) s = (Normal tt, s') →
    connectionArray s' = connectionArray s.

(** Alice stays; Bob's connection has gone down and its close is yet to
    come; Dave's close arrives first and sweeps Bob out too; then Carol
    connects and her connection goes down. *)
Definition carol_down : list event :=
  [Request "http://localhost:3000" "::1";
   Request "http://localhost:3000" "::2";
   Request "http://localhost:3000" "::3";
   Lost 2;
   Close 3 "::3" 1000 (Some "Normal connection closure");
   Request "http://localhost:3000" "::4";
   Lost 4].

Definition carol_down_state : server := (run 1 carol_down (initial 1)).2.

(** ** Vocabulary of the further properties *)

Definition is_request (e : event) : bool :=
  match e with
  | Request _ _ => true
  | Message _ | Lost _ | Close _ _ _ _ => false
  end.

(** The number of connection requests among [events]. *)
Definition connects (events : list event) : nat :=
  length (filter (λ e, is_request e) events).

(** What identifies a connection and what the library keeps about it:
    everything but the username. *)
Definition membership (c : connection) : Z * bool * string :=
  (clientID c, connected c, remoteAddress c).

(** The frames written from [s] on, in a later state [s']. *)
Definition written_since (s s' : server) : list (Z * frame) :=
  drop (length (sent s)) (sent s').

(** ** The static file server

    [handleWebRequest] and [serveStaticFile].  What they ask of Node is a
    parameter: [path.extname], [fs.existsSync] and the outcome of
    [fs.readFile] ([None] for an error).  [extname] returns the empty
    string or a string that starts with a dot, so reading [mimeTypes[ext]]
    never reaches a property inherited from [Object.prototype]. *)
Record runtime : Type := Runtime {
  extname : string → string;
  existsSync : string → bool;
  readFile : string → option string
}.

(** What the handler passes to [res.writeHead] and [res.end]. *)
Record response : Type := Response {
  status : Z;
  headers : list (string * string);
  body : string
}.

Definition mimeTypes : gmap string string :=
  list_to_map [(".html", "text/html");
               (".js", "application/javascript");
               (".css", "text/css");
               (".json", "application/json");
               (".ico", "image/x-icon")].

(** The callback of [readFile] writes the response. *)
Definition serveStaticFile (node : runtime) (filePath contentType : string)
  : M response :=
  match readFile node filePath with
  | None => mret (Response 500 [] "Internal Server Error")
  | Some content => mret (Response 200 [("Content-Type", contentType)] content)
  end.

(** [filePath]: the root is the page, anything else is the URL as it came,
    under the working directory. *)
Definition served_path (url : string) : string :=
  if bool_decide (url = "/") then "./index.html" else "." +:+ url.

Definition handleWebRequest (node : runtime) (url : string) : M response :=
  log ("Received request for " +:+ url);;
  let filePath := served_path url in
  let ext := extname node filePath in
  let contentType := default "application/octet-stream" (mimeTypes !! ext) in
  if negb (existsSync node filePath) then mret (Response 404 [] "404 Not Found")
  else serveStaticFile node filePath contentType.

(** [path.extname] gives the empty string or an extension with its dot. *)
Definition dotted_extname (node : runtime) : Prop :=
  ∀ p, extname node p = "" ∨ ∃ rest, extname node p = "." +:+ rest.

(** The content types the server can announce. *)
Definition content_types : list string :=
  ["text/html"; "application/javascript"; "text/css"; "application/json";
   "image/x-icon"; "application/octet-stream"].

(** A directory with the page and its script; only the page can be read. *)
Definition demo_runtime : runtime :=
  Runtime (λ p, if bool_decide (p = "./index.html") then ".html"
                else if bool_decide (p = "./chatclient.js") then ".js" else "")
          (λ p, bool_decide (p = "./index.html") || bool_decide (p = "./chatclient.js"))
          (λ p, if bool_decide (p = "./index.html") then Some "<!doctype html>" else None).

(** * Properties *)

(** Unfolding of the monad and of the straight-line helpers. *)
Ltac unfold_monad :=
  cbv [mbind M_bind mret M_ret get throw log sendUTF set_connectionArray
       JSON_parse read_id read_target deref getConnectionForID isUsernameUnique
       makeUserListMessage incr_appendToMakeUnique assign_username];
  cbn [connectionArray nextID appendToMakeUnique sent logged fst snd].

(** ** Sanitisation *)
Section sanitize_facts.
Import Sanitize.

Lemma after_gt_length s r :
  after_gt s = Some r → (String.length r < String.length s)%nat.
Proof.
  revert r. induction s as [|c s IH]; intros r; simpl; [done|].
  destruct (Ascii.eqb c gt_char).
  - intros [= ->]. lia.
  - intros H. apply IH in H. lia.
Qed.

Lemma match_tag_length s r :
  match_tag s = Some r → (String.length r < String.length s)%nat.
Proof.
  destruct s as [|c [|d s]]; simpl; try done.
  destruct (Ascii.eqb c lt_char); [|done].
  destruct (Ascii.eqb d gt_char); [done|].
  intros H. apply after_gt_length in H. lia.
Qed.

(** [strip], one step at a time. *)
Lemma strip_cons c r :
  strip (String c r) =
  match match_tag (String c r) with
  | Some rest => strip rest
  | None => String c (strip r)
  end.
Proof.
  simp strip.
  destruct (inspect (match_tag (String c r))) as [[rest|] Heq].
  - change (strip rest = match match_tag (String c r) with
                         | Some rest => strip rest
                         | None => String c (strip r)
                         end).
    by rewrite Heq.
  - change (String c (strip r) = match match_tag (String c r) with
                                 | Some rest => strip rest
                                 | None => String c (strip r)
                                 end).
    by rewrite Heq.
Qed.

(** Without a closing bracket nothing matches. *)
Lemma after_gt_None_strip s : after_gt s = None → strip s = s.
Proof.
  induction s as [|c r IH]; intros Hs; [by simp strip|].
  simpl in Hs. destruct (Ascii.eqb c gt_char) eqn:Hc; [done|].
  rewrite strip_cons.
  assert (match_tag (String c r) = None) as ->.
  { destruct r as [|d r']; simpl; [done|].
    destruct (Ascii.eqb c lt_char); [|done].
    simpl in Hs. by destruct (Ascii.eqb d gt_char). }
  by rewrite IH.
Qed.

(** A code unit that [strip] keeps because no match starts there still
    starts no match in the output: it is no [<], or it is followed at once
    by [>] (which is kept too), or no [>] follows at all. *)
Lemma match_tag_None_strip c r :
  match_tag (String c r) = None → match_tag (String c (strip r)) = None.
Proof.
  destruct r as [|d r']; [by simp strip|].
  intros H. simpl in H.
  destruct (Ascii.eqb c lt_char) eqn:Hc; cycle 1.
  { simpl. rewrite Hc. by destruct (strip _). }
  destruct (Ascii.eqb d gt_char) eqn:Hd.
  - rewrite strip_cons.
    assert (match_tag (String d r') = None) as ->.
    { apply Ascii.eqb_eq in Hd as ->. by destruct r'. }
    simpl. by rewrite Hc, Hd.
  - rewrite after_gt_None_strip; simpl; by rewrite ?Hc, ?Hd.
Qed.

(** C9. Sanitisation is idempotent: stripping the [<...>] spans of a text
    that has already been stripped returns it unchanged,
    [strip (strip s) = strip s], for every string [s]. *)
Theorem strip_idempotent (s : string) : strip (strip s) = strip s.
Proof.
  induction (Nat.lt_wf_0_projected String.length s) as [s _ IH].
  destruct s as [|c r]; [by simp strip|].
  rewrite strip_cons.
  destruct (match_tag (String c r)) as [rest|] eqn:Hm.
  - apply IH. by apply match_tag_length.
  - rewrite strip_cons, match_tag_None_strip by done.
    rewrite IH; [done|simpl; lia].
Qed.

Example strip_scenario : strip "hi <b>bob</b>" = "hi bob".
Proof. reflexivity. Qed.

Example strip_nested : strip "<<a>b> <> <a <><x>" = "b> <> ".
Proof. reflexivity. Qed.
End sanitize_facts.

(** ** The registry and the helpers *)

Lemma send_each_run rest f s :
  send_each rest f s =
  (Normal tt,
   Server (connectionArray s) (nextID s) (appendToMakeUnique s)
          (sent s ++ deliveries rest f) (logged s)).
Proof.
  revert s. induction rest as [|c rest IH]; intros s; simpl.
  - rewrite app_nil_r. by destruct s.
  - unfold mbind, M_bind. simpl. rewrite IH. simpl.
    by rewrite <- app_assoc.
Qed.

Lemma sendUserListToAll_run s :
  sendUserListToAll s =
  (Normal tt,
   Server (connectionArray s) (nextID s) (appendToMakeUnique s)
          (sent s ++ deliveries (connectionArray s)
                       (UserListFrame (username <$> connectionArray s)))
          (logged s)).
Proof.
  unfold sendUserListToAll, makeUserListMessage, mbind, M_bind, get, mret, M_ret.
  by rewrite send_each_run.
Qed.

Lemma strict_eq_NaN a : strict_eq a JNaN = false.
Proof. by destruct a as [| | |[]| |]. Qed.

Lemma strict_eq_string a t : strict_eq a (JString t) = true ↔ a = JString t.
Proof.
  destruct a; simpl; try (split; done).
  rewrite bool_decide_eq_true. split; [by intros ->|by intros [= ->]].
Qed.

Lemma strict_eq_undefined a : strict_eq a JUndefined = true ↔ a = JUndefined.
Proof. by destruct a. Qed.

(** What is [===] to a value that is not [null], a boolean or a number is
    that value. *)
Lemma strict_eq_exact a b :
  numeric b = false ∨ b = JNaN → strict_eq a b = true → a = b ∧ b ≠ JNaN.
Proof.
  intros [Hb| ->]; [|by rewrite strict_eq_NaN].
  destruct a, b; simpl in *; try done.
  rewrite bool_decide_eq_true. by intros ->.
Qed.

Lemma js_incr_below z : z < 2 ^ 53 → js_incr z = z + 1.
Proof. intros Hz. unfold js_incr. by rewrite (proj2 (Z.ltb_lt _ _)). Qed.

Lemma js_incr_top z : 2 ^ 53 ≤ z → js_incr z = z.
Proof. intros Hz. unfold js_incr. by rewrite (proj2 (Z.ltb_ge _ _)). Qed.

Lemma js_incr_le z : z ≤ js_incr z.
Proof.
  destruct (Z_lt_le_dec z (2 ^ 53)) as [Hz|Hz].
  - rewrite js_incr_below; [lia|done].
  - rewrite js_incr_top; [lia|done].
Qed.

(** A name is taken when the scan of [isUsernameUnique] stops early. *)
Lemma isUsernameUnique_loop_false rest name :
  isUsernameUnique_loop rest name = false ↔
  ∃ c, c ∈ rest ∧ strict_eq (username c) name = true.
Proof.
  induction rest as [|c rest IH]; simpl.
  - split; [done|]. intros (c & Hc & _). by apply elem_of_nil in Hc.
  - destruct (strict_eq (username c) name) eqn:Hc.
    + split; [|done]. intros _. exists c. split; [left|done].
    + rewrite IH. split.
      * intros (c' & Hin & Heq). exists c'. split; [by right|done].
      * intros (c' & Hin & Heq). apply elem_of_cons in Hin as [->|Hin].
        -- congruence.
        -- by exists c'.
Qed.

Lemma isUsernameUnique_loop_true rest name :
  isUsernameUnique_loop rest name = true ↔
  ∀ c, c ∈ rest → strict_eq (username c) name = false.
Proof.
  split.
  - intros Hu c Hc. destruct (strict_eq (username c) name) eqn:Heq; [|done].
    assert (isUsernameUnique_loop rest name = false) as Hf; [|congruence].
    apply isUsernameUnique_loop_false. eauto.
  - intros Hall. destruct (isUsernameUnique_loop rest name) eqn:Hu; [done|].
    apply isUsernameUnique_loop_false in Hu as (c & Hc & Heq).
    rewrite Hall in Heq; done.
Qed.

Lemma taken_elem_of rest name :
  numeric name = false ∨ name = JNaN →
  isUsernameUnique_loop rest name = false →
  name ∈ username <$> rest ∧ name ≠ JNaN.
Proof.
  intros Hname (c & Hc & Heq)%isUsernameUnique_loop_false.
  apply strict_eq_exact in Heq as [<- Hn]; [|done]. split; [|done].
  apply list_elem_of_fmap. eauto.
Qed.

(** ** The suffixed candidates are all different *)

Lemma pretty_N_go_length x s :
  (String.length s ≤ String.length (pretty_N_go x s))%nat.
Proof.
  revert s. induction (N.lt_wf_0 x) as [x _ IH]; intros s.
  destruct (decide (x = 0%N)) as [->|Hx].
  - by rewrite pretty_N_go_0.
  - rewrite pretty_N_go_step by lia.
    etrans; [|apply IH; apply N.div_lt; lia]. simpl. lia.
Qed.

Lemma pretty_N_nonempty (x : N) : pretty x ≠ "".
Proof.
  unfold pretty, pretty_N. destruct (decide (x = 0%N)); [done|].
  rewrite pretty_N_go_step by lia. intros Heq.
  pose proof (pretty_N_go_length (x `div` 10)
                (String (pretty_N_char (x `mod` 10)) "")) as Hlen.
  rewrite Heq in Hlen. simpl in Hlen. lia.
Qed.

Lemma pretty_Z_nonempty (k : Z) : pretty k ≠ "".
Proof.
  destruct k as [|p|p]; [done| |done].
  apply (pretty_N_nonempty (N.pos p)).
Qed.

Lemma append_eq_self (t a : string) : t +:+ a = t → a = "".
Proof. induction t as [|c t IH]; simpl; [done|]. intros [= H]. auto. Qed.

Lemma js_add_ne_orig o k : numeric o = false → js_add o k ≠ o.
Proof.
  destruct o as [| | | |t|src t]; simpl; try done.
  intros _ [= H%append_eq_self]. by apply pretty_Z_nonempty in H.
Qed.

Lemma js_add_inj o k k' :
  numeric o = false → js_add o k ≠ JNaN → js_add o k = js_add o k' → k = k'.
Proof.
  destruct o as [| | | |t|src t]; simpl; try done.
  - intros _ _ [= H]. by apply (inj (String.append t)), (inj pretty) in H.
  - intros _ _ [= H]. by apply (inj (String.append t)), (inj pretty) in H.
Qed.

(** The suffixed form of such a name is a string, or [NaN]. *)
Lemma js_add_plain o k :
  numeric o = false → numeric (js_add o k) = false ∨ js_add o k = JNaN.
Proof. destruct o; simpl; try done; by (left + right). Qed.

(** ** The renaming loop *)

Lemma bump_0 s : bump 0 s = s.
Proof. destruct s. unfold bump. simpl. by rewrite Z.add_0_r. Qed.

(** When the loop ends, it ends on a name that nobody holds, and all it
    changed is the counter. *)
Lemma username_loop_Normal fuel origName name changed s granted changed' s' :
  username_loop fuel origName name changed s = (Normal (granted, changed'), s') →
  isUsernameUnique_loop (connectionArray s) granted = true ∧
  ∃ j, s' = bump j s.
Proof.
  revert name changed s. induction fuel as [|fuel IH]; intros name changed s;
    simpl; [done|].
  unfold mbind, M_bind, isUsernameUnique, get, mret, M_ret; simpl.
  destruct (isUsernameUnique_loop (connectionArray s) name) eqn:Hu.
  - intros [= <- <- <-]. split; [done|]. exists 0%nat. by rewrite bump_0.
  - intros H. apply IH in H as [Hg [j ->]]. split; [done|].
    destruct (Z_lt_le_dec (appendToMakeUnique s) (2 ^ 53)) as [Hc|Hc].
    + exists (S j). unfold bump; simpl. rewrite js_incr_below by done.
      f_equal. lia.
    + exists j. unfold bump; simpl. by rewrite js_incr_top.
Qed.

(** The loop ends for a name to which [+] appends: the names it has tried
    and found taken are pairwise different and are all held by connections,
    so there are at most [length connectionArray] of them, as long as the
    counter stays below 2^53.  [seen] is the list of these names. *)
Lemma username_loop_returns fuel origName name changed s seen :
  numeric origName = false →
  numeric name = false ∨ name = JNaN →
  NoDup seen →
  (∀ x, x ∈ seen → x ∈ username <$> connectionArray s) →
  name ∉ seen →
  (∀ k, appendToMakeUnique s ≤ k → js_add origName k ∉ seen) →
  (isUsernameUnique_loop (connectionArray s) name = false →
   ∀ k, appendToMakeUnique s ≤ k → js_add origName k ≠ name) →
  (length (connectionArray s) < fuel + length seen)%nat →
  appendToMakeUnique s + Z.of_nat (length (connectionArray s))
    ≤ 2 ^ 53 + Z.of_nat (length seen) →
  ∃ j, (j + length seen ≤ length (connectionArray s))%nat ∧ (j < fuel)%nat ∧
    username_loop fuel origName name changed s =
      (Normal (candidate origName name s j,
               match j with O => changed | S _ => true end), bump j s) ∧
    isUsernameUnique_loop (connectionArray s) (candidate origName name s j) = true ∧
    (j = 0%nat ↔ isUsernameUnique_loop (connectionArray s) name = true).
Proof.
  intros Horig. revert name changed s seen.
  induction fuel as [|fuel IH];
    intros name changed s seen Hplain Hnd Hsub Hname Hfut Hnext Hlen Hroom.
  { assert (length seen ≤ length (username <$> connectionArray s))%nat as Hle.
    { apply submseteq_length, NoDup_submseteq; done. }
    rewrite length_fmap in Hle. lia. }
  simpl. unfold mbind, M_bind, isUsernameUnique, get, mret, M_ret; simpl.
  destruct (isUsernameUnique_loop (connectionArray s) name) eqn:Hu.
  { exists 0%nat. simpl. rewrite bump_0. split_and!; try done; try lia.
    assert (length seen ≤ length (username <$> connectionArray s))%nat as Hle.
    { apply submseteq_length, NoDup_submseteq; done. }
    rewrite length_fmap in Hle. lia. }
  pose proof (taken_elem_of _ _ Hplain Hu) as [Hin Hnan].
  assert (S (length seen) ≤ length (connectionArray s))%nat as Hmore.
  { rewrite <- (length_fmap username).
    change (S (length seen)) with (length (name :: seen)).
    apply submseteq_length, NoDup_submseteq; [by constructor|].
    intros x [-> | Hx]%elem_of_cons; auto. }
  rewrite js_incr_below by lia.
  set (s1 := Server (connectionArray s) (nextID s) (appendToMakeUnique s + 1)
                    (sent s) (logged s)).
  destruct (IH (js_add origName (appendToMakeUnique s)) true s1 (name :: seen))
    as (j & Hj & Hjf & Hrun & Huniq & _); simpl.
  - by apply js_add_plain.
  - by constructor.
  - intros x [-> | Hx]%elem_of_cons; auto.
  - intros [Heq|Hx]%elem_of_cons.
    + by apply (Hnext eq_refl (appendToMakeUnique s)).
    + by apply (Hfut (appendToMakeUnique s)).
  - intros k Hk [Heq|Hx]%elem_of_cons.
    + apply (Hnext eq_refl k); [lia|done].
    + apply (Hfut k); [lia|done].
  - intros Htaken k Hk Heq.
    apply taken_elem_of in Htaken as [_ Hn]; [|by apply js_add_plain].
    symmetry in Heq. apply js_add_inj in Heq; [lia|done|done].
  - lia.
  - lia.
  - assert (candidate origName (js_add origName (appendToMakeUnique s)) s1 j
            = candidate origName name s (S j)) as Hcand.
    { destruct j as [|j]; simpl; f_equal; lia. }
    rewrite Hcand in Hrun, Huniq.
    exists (S j). simpl in Hj. split_and!; try lia; try done.
    + rewrite Hrun. f_equal; [by destruct j|].
      unfold bump; simpl. f_equal. lia.
Qed.

Lemma username_loop_top fuel origName s :
  numeric origName = false →
  (length (connectionArray s) < fuel)%nat →
  appendToMakeUnique s + Z.of_nat (length (connectionArray s)) ≤ 2 ^ 53 →
  ∃ j, (j ≤ length (connectionArray s))%nat ∧
    username_loop fuel origName origName false s =
      (Normal (candidate origName origName s j,
               match j with O => false | S _ => true end), bump j s) ∧
    isUsernameUnique_loop (connectionArray s) (candidate origName origName s j) = true ∧
    (j = 0%nat ↔ isUsernameUnique_loop (connectionArray s) origName = true).
Proof.
  intros Horig Hfuel Hroom.
  destruct (username_loop_returns fuel origName origName false s [])
    as (j & Hj & _ & Hrun & Hu & Hiff); simpl; try done.
  - by left.
  - apply NoDup_nil_2.
  - intros x Hx. by apply elem_of_nil in Hx.
  - apply not_elem_of_nil.
  - intros k _. apply not_elem_of_nil.
  - intros _ k _. by apply js_add_ne_orig.
  - lia.
  - exists j. simpl in Hj. split_and!; try done. lia.
Qed.

(** ** What a [username] message does *)

Lemma on_message_username fuel utf8Data o i c s :
  msg_type o = Some "username" →
  list_find (λ c, Some (clientID c) = msg_id o) (connectionArray s) = Some (i, c) →
  numeric (msg_name o) = false →
  (length (connectionArray s) < fuel)%nat →
  appendToMakeUnique s + Z.of_nat (length (connectionArray s)) ≤ 2 ^ 53 →
  ∃ j, (j ≤ length (connectionArray s))%nat ∧
    let granted := candidate (msg_name o) (msg_name o) s j in
    let registry := alter (set_username granted) i (connectionArray s) in
    isUsernameUnique_loop (connectionArray s) granted = true ∧
    (j = 0%nat ↔ isUsernameUnique_loop (connectionArray s) (msg_name o) = true) ∧
    on_message fuel (Utf8Message utf8Data (Some (JsonObject o))) s =
      (Normal tt,
       Server registry (nextID s) (appendToMakeUnique s + Z.of_nat j)
         (sent s
            ++ match j with
               | O => []
               | S _ => [(clientID c, RejectUsernameFrame (msg_id o) granted)]
               end
            ++ deliveries registry (UserListFrame (username <$> registry)))
         (received s utf8Data)).
Proof.
  intros Hty Hfind Hname Hfuel Hroom.
  set (s0 := Server (connectionArray s) (nextID s) (appendToMakeUnique s) (sent s)
                    (received s utf8Data)).
  destruct (username_loop_top fuel (msg_name o) s0) as (j & Hj & Hrun & Hu & Hiff);
    [done|done|done|].
  exists j. split_and!; try done.
  unfold on_message. unfold_monad.
  rewrite Hfind, Hty. simpl.
  subst s0. unfold received in *. simpl in Hrun. rewrite Hrun.
  destruct j as [|j]; unfold_monad; rewrite sendUserListToAll_run; simpl.
  - by rewrite Z.add_0_r.
  - by rewrite <- app_assoc.
Qed.

(** ** The registry invariant *)

Lemma unique_not_elem_of rest t :
  isUsernameUnique_loop rest (JString t) = true →
  t ∉ omap display_name rest.
Proof.
  intros Hu (c & Hc & Hn)%list_elem_of_omap.
  rewrite isUsernameUnique_loop_true in Hu. specialize (Hu c Hc).
  unfold display_name in Hn. destruct (username c); simplify_eq/=.
  by rewrite bool_decide_eq_false in Hu.
Qed.

Lemma display_name_alter_elem_of (rest : list connection) (i : nat) g x :
  x ∈ omap display_name (alter (set_username g) i rest) →
  x ∈ omap display_name rest ∨ g = JString x.
Proof.
  intros (c & Hc & Hn)%list_elem_of_omap.
  apply list_elem_of_lookup in Hc as [j Hj].
  rewrite list_lookup_alter in Hj. case_decide; subst.
  - apply fmap_Some in Hj as (c0 & _ & ->).
    unfold display_name in Hn; simpl in Hn. destruct g; simplify_eq. by right.
  - left. apply list_elem_of_omap. exists c. split; [|done].
    by eapply list_elem_of_lookup_2.
Qed.

(** Giving a connection a name that nobody holds keeps the names apart. *)
Lemma names_alter (rest : list connection) (i : nat) g :
  isUsernameUnique_loop rest g = true →
  NoDup (omap display_name rest) →
  NoDup (omap display_name (alter (set_username g) i rest)).
Proof.
  revert i. induction rest as [|c rest IH]; intros i Hu Hnd; [done|].
  simpl in Hu. destruct (strict_eq (username c) g) eqn:Hc; [done|].
  assert (NoDup (omap display_name rest)) as Hrest.
  { simpl in Hnd. destruct (display_name c); [by apply NoDup_cons in Hnd as []|done]. }
  destruct i as [|i]; simpl.
  - destruct (display_name (set_username g c)) as [t|] eqn:Ht; [|done].
    unfold display_name in Ht; simpl in Ht. destruct g; simplify_eq.
    apply NoDup_cons. split; [by apply unique_not_elem_of|done].
  - simpl in Hnd. destruct (display_name c) as [t|] eqn:Ht; [|by apply IH].
    apply NoDup_cons in Hnd as [Hnotin _].
    apply NoDup_cons. split; [|by apply IH].
    intros [Hin | ->]%display_name_alter_elem_of; [done|].
    unfold display_name in Ht. destruct (username c); simplify_eq/=.
    by rewrite bool_decide_eq_false in Hc.
Qed.

Lemma ids_alter (rest : list connection) (i : nat) g :
  clientID <$> alter (set_username g) i rest = clientID <$> rest.
Proof.
  revert i. induction rest as [|c rest IH]; intros [|i]; csimpl; try done.
  by rewrite IH.
Qed.

Lemma names_sublist (l k : list connection) :
  l `sublist_of` k → omap display_name l `sublist_of` omap display_name k.
Proof.
  induction 1 as [|c l k _ IH|c l k _ IH]; simpl; [done| |].
  - destruct (display_name c); [by apply sublist_skip|done].
  - destruct (display_name c); [by apply sublist_cons|done].
Qed.

Lemma invariant_alter s s' i g :
  invariant s →
  isUsernameUnique_loop (connectionArray s) g = true →
  connectionArray s' = alter (set_username g) i (connectionArray s) →
  nextID s' = nextID s →
  invariant s'.
Proof.
  intros [Hn Hi Hf] Hu Hca Hid. split; rewrite Hca, ?Hid.
  - by apply names_alter.
  - rewrite ids_alter. auto.
  - rewrite ids_alter. auto.
Qed.

Lemma invariant_sublist s s' :
  invariant s →
  connectionArray s' `sublist_of` connectionArray s →
  nextID s' = nextID s →
  invariant s'.
Proof.
  intros [Hn Hi Hf] Hsub Hid. split; rewrite ?Hid.
  - eapply sublist_NoDup; [done|by apply names_sublist].
  - intros Hroom. eapply sublist_NoDup; [by apply Hi|]. by apply fmap_sublist.
  - intros Hroom. specialize (Hf Hroom).
    rewrite Forall_forall in Hf |- *. intros x Hx. apply Hf.
    eapply elem_of_sublist; [done|]. by apply fmap_sublist.
Qed.

(** ** What the handlers leave alone *)

Lemma username_loop_frame fuel origName name changed s r s' :
  username_loop fuel origName name changed s = (r, s') →
  ∃ j, s' = bump j s.
Proof.
  revert name changed s. induction fuel as [|fuel IH]; intros name changed s; simpl.
  { intros [= <- <-]. exists 0%nat. by rewrite bump_0. }
  unfold_monad.
  destruct (isUsernameUnique_loop (connectionArray s) name).
  - intros [= <- <-]. exists 0%nat. by rewrite bump_0.
  - intros [j ->]%IH.
    destruct (Z_lt_le_dec (appendToMakeUnique s) (2 ^ 53)) as [Hc|Hc].
    + exists (S j). unfold bump; simpl. rewrite js_incr_below by done.
      f_equal. lia.
    + exists j. unfold bump; simpl. by rewrite js_incr_top.
Qed.

(** The [if (sendToClients)] block, outcome by outcome. *)
Lemma send_to_clients_run msg s :
  send_to_clients msg s =
  match directed_to msg with
  | Some target =>
      match list_find (λ conn, strict_eq (username conn) (JString target))
                      (connectionArray s) with
      | Some (_, conn) => (Normal tt, sending s [(clientID conn, RelayFrame msg)])
      | None => (Throw TypeError, s)
      end
  | None =>
      (Normal tt, sending s (deliveries (connectionArray s) (RelayFrame msg)))
  end.
Proof.
  unfold send_to_clients, directed_to, read_target.
  destruct msg as [|src|o]; simpl;
    try (unfold_monad; by rewrite send_each_run).
  destruct (msg_target o) as [[|a t]|]; simpl;
    try (unfold_monad; by rewrite send_each_run).
  unfold sendToOneUser. unfold_monad.
  by destruct (list_find _ _) as [[? ?]|].
Qed.

Lemma send_to_clients_frame msg s r s' :
  send_to_clients msg s = (r, s') →
  connectionArray s' = connectionArray s ∧ nextID s' = nextID s ∧
  appendToMakeUnique s' = appendToMakeUnique s.
Proof.
  rewrite send_to_clients_run.
  destruct (directed_to msg); [destruct (list_find _ _) as [[? ?]|]|];
    by intros [= <- <-].
Qed.

(** A message changes the registry in one way only: it gives a connection a
    name that no connection held.  It never lowers the suffix counter. *)
Lemma on_message_registry fuel message s r s' :
  on_message fuel message s = (r, s') →
  nextID s' = nextID s ∧
  appendToMakeUnique s ≤ appendToMakeUnique s' ∧
  (connectionArray s' = connectionArray s ∨
   ∃ i granted,
     isUsernameUnique_loop (connectionArray s) granted = true ∧
     connectionArray s' = alter (set_username granted) i (connectionArray s)).
Proof.
  assert (∀ msg s0, connectionArray s0 = connectionArray s →
            nextID s0 = nextID s → appendToMakeUnique s0 = appendToMakeUnique s →
            send_to_clients msg s0 = (r, s') →
            nextID s' = nextID s ∧ appendToMakeUnique s ≤ appendToMakeUnique s' ∧
            (connectionArray s' = connectionArray s ∨
             ∃ i granted,
               isUsernameUnique_loop (connectionArray s) granted = true ∧
               connectionArray s' = alter (set_username granted) i (connectionArray s)))
    as Hrelay.
  { intros msg s0 H1 H2 H3 (-> & -> & ->)%send_to_clients_frame.
    split_and!; [done|lia|by left]. }
  assert (∀ j, appendToMakeUnique s ≤ appendToMakeUnique s + Z.of_nat j) as Hle by lia.
  destruct message as [|utf8Data [msg|]]; simpl.
  - intros [= <- <-]. split_and!; [done|lia|by left].
  - unfold_monad. destruct msg as [|src|o]; simpl.
    + intros [= <- <-]. split_and!; [done|simpl; lia|by left].
    + by apply Hrelay.
    + destruct (list_find _ _) as [[i c]|] eqn:Hfind; simpl.
      * destruct (bool_decide (msg_type o = Some "message")).
        { destruct (msg_text o); simpl.
          - by apply Hrelay.
          - intros [= <- <-]. split_and!; [done|simpl; lia|by left]. }
        destruct (bool_decide (msg_type o = Some "username")); [|by apply Hrelay].
        destruct (username_loop _ _ _ _ _) as [[[granted changed]| |] s1] eqn:Hloop.
        2,3: apply username_loop_frame in Hloop as [j ->]; intros [= <- <-];
             split_and!; [done|apply Hle|by left].
        pose proof (username_loop_Normal _ _ _ _ _ _ _ _ Hloop) as [Hu [j ->]].
        simpl in Hu.
        destruct changed; unfold_monad; rewrite sendUserListToAll_run; simpl;
          intros [= <- <-]; simpl; split_and!; try done; try apply Hle; right; eauto.
      * destruct (bool_decide (msg_type o = Some "message")).
        { intros [= <- <-]. split_and!; [done|simpl; lia|by left]. }
        destruct (bool_decide (msg_type o = Some "username")); [|by apply Hrelay].
        destruct (username_loop _ _ _ _ _) as [[[granted changed]| |] s1] eqn:Hloop;
          apply username_loop_frame in Hloop as [j ->];
          try destruct changed; intros [= <- <-];
          (split_and!; [done|apply Hle|by left]).
  - intros [= <- <-]. split_and!; [done|simpl; lia|by left].
Qed.

Lemma on_request_run origin address s :
  on_request origin address s =
  (Normal tt,
   Server (connectionArray s ++ [Connection (nextID s) JUndefined true address])
          (js_incr (nextID s)) (appendToMakeUnique s)
          (sent s ++ [(nextID s, IdFrame (nextID s))])
          (logged s ++ ["Connection accepted from " +:+ address +:+ "."])).
Proof. reflexivity. Qed.

Lemma transport_down_run id s :
  transport_down id s =
  (Normal tt,
   Server (mark_down id <$> connectionArray s) (nextID s) (appendToMakeUnique s)
          (sent s) (logged s)).
Proof. reflexivity. Qed.

Lemma on_close_run address reason description s :
  on_close address reason description s =
  (Normal tt,
   let registry := filter (λ el, connected el) (connectionArray s) in
   Server registry (nextID s) (appendToMakeUnique s)
          (sent s ++ deliveries registry (UserListFrame (username <$> registry)))
          (logged s ++ [close_log_message address reason description])).
Proof.
  unfold on_close. unfold_monad. by rewrite sendUserListToAll_run.
Qed.

Lemma mark_down_names id (rest : list connection) :
  omap display_name (mark_down id <$> rest) = omap display_name rest.
Proof.
  induction rest as [|c rest IH]; csimpl; [done|]. rewrite IH.
  unfold mark_down. by destruct (bool_decide _).
Qed.

Lemma mark_down_ids id (rest : list connection) :
  clientID <$> (mark_down id <$> rest) = clientID <$> rest.
Proof.
  induction rest as [|c rest IH]; csimpl; [done|]. rewrite IH.
  unfold mark_down. by destruct (bool_decide _).
Qed.

Lemma invariant_initial now : invariant (initial now).
Proof. split; simpl; intros; by constructor. Qed.

Lemma invariant_request origin address s s' :
  invariant s → on_request origin address s = (Normal tt, s') → invariant s'.
Proof.
  intros [Hn Hi Hf]. rewrite on_request_run. intros [= <-]. split; simpl.
  - by rewrite omap_app, app_nil_r.
  - intros Hroom. pose proof (js_incr_le (nextID s)) as Hle.
    rewrite fmap_app. apply NoDup_app.
    split_and!; [apply Hi; lia| |apply NoDup_singleton].
    intros x Hx [= ->]%list_elem_of_singleton.
    assert (nextID s < 2 ^ 53) as Hf'%Hf by lia.
    rewrite Forall_forall in Hf'. apply Hf' in Hx. lia.
  - intros Hroom. pose proof (js_incr_le (nextID s)) as Hle.
    assert (nextID s < 2 ^ 53) as Hlt by lia.
    rewrite js_incr_below by done.
    rewrite fmap_app. apply Forall_app. split.
    + eapply Forall_impl; [by apply Hf|]. simpl. lia.
    + apply Forall_singleton. simpl. lia.
Qed.

Lemma invariant_down id s s' :
  invariant s → transport_down id s = (Normal tt, s') → invariant s'.
Proof.
  intros [Hn Hi Hf]. rewrite transport_down_run. intros [= <-]. split; simpl.
  - by rewrite mark_down_names.
  - by rewrite mark_down_ids.
  - by rewrite mark_down_ids.
Qed.

Lemma invariant_close address reason description s s' :
  invariant s →
  on_close address reason description s = (Normal tt, s') → invariant s'.
Proof.
  intros Hinv. rewrite on_close_run. intros [= <-].
  eapply invariant_sublist; [done| |done]. simpl. apply sublist_filter.
Qed.

Lemma invariant_message fuel message s r s' :
  invariant s → on_message fuel message s = (r, s') → invariant s'.
Proof.
  intros Hinv (Hid & _ & [Hca|(i & g & Hu & Hca)])%on_message_registry.
  - destruct Hinv as [Hn Hi Hf]. split; by rewrite ?Hca, ?Hid.
  - by eapply invariant_alter.
Qed.

Lemma invariant_step fuel e s s' :
  invariant s → step fuel e s = (Normal tt, s') → invariant s'.
Proof.
  intros Hinv. destruct e as [origin address|message|id|id address reason description];
    simpl.
  - by apply invariant_request.
  - by apply invariant_message.
  - by apply invariant_down.
  - unfold mbind, M_bind. rewrite transport_down_run.
    apply invariant_close. eapply invariant_down; [done|].
    by rewrite transport_down_run.
Qed.

Lemma reachable_invariant s : reachable s → invariant s.
Proof.
  induction 1 as [now Hnow|s e fuel s' _ IH Hstep].
  - apply invariant_initial.
  - by eapply invariant_step.
Qed.

(** Running a list of events from a reachable state ends in one. *)
Lemma run_reachable fuel events s s' :
  reachable s → run fuel events s = (Normal tt, s') → reachable s'.
Proof.
  revert s. induction events as [|e events IH]; intros s Hs; simpl.
  - by intros [= <-].
  - unfold mbind, M_bind.
    destruct (step fuel e s) as [[[]| |] s1] eqn:Hstep; [|done|done].
    apply IH. by eapply reachable_step.
Qed.

(** The suffix counter is never reset: no event lowers it. *)
Lemma step_counter_monotone fuel e s r s' :
  step fuel e s = (r, s') → appendToMakeUnique s ≤ appendToMakeUnique s'.
Proof.
  destruct e as [origin address|message|id|id address reason description]; simpl.
  - rewrite on_request_run. intros [= <- <-]. simpl. lia.
  - by intros (_ & ? & _)%on_message_registry.
  - rewrite transport_down_run. intros [= <- <-]. simpl. lia.
  - unfold mbind, M_bind. rewrite transport_down_run, on_close_run.
    intros [= <- <-]. simpl. lia.
Qed.

(** More fuel does not change what the loop returns. *)
Lemma username_loop_more_fuel fuel fuel' origName name changed s result s' :
  username_loop fuel origName name changed s = (Normal result, s') →
  (fuel ≤ fuel')%nat →
  username_loop fuel' origName name changed s = (Normal result, s').
Proof.
  revert fuel' name changed s.
  induction fuel as [|fuel IH]; intros fuel' name changed s; simpl; [done|].
  intros Hrun Hle. destruct fuel' as [|fuel']; [lia|]. simpl.
  revert Hrun. unfold_monad.
  destruct (isUsernameUnique_loop (connectionArray s) name); [done|].
  intros Hrun. apply IH; [done|lia].
Qed.

(** A round of the loop. *)
Lemma username_loop_round fuel origName name changed s :
  isUsernameUnique_loop (connectionArray s) name = false →
  appendToMakeUnique s < 2 ^ 53 →
  username_loop (S fuel) origName name changed s =
  username_loop fuel origName (js_add origName (appendToMakeUnique s)) true (bump 1 s).
Proof.
  intros Hu Hroom. cbn [username_loop]. unfold_monad. rewrite Hu.
  rewrite js_incr_below by done. done.
Qed.

Lemma candidate_round origName name s i :
  candidate origName (js_add origName (appendToMakeUnique s)) (bump 1 s) i
  = candidate origName name s (S i).
Proof. destruct i as [|i]; simpl; f_equal; lia. Qed.

Lemma bump_bump i j s : bump i (bump j s) = bump (j + i) s.
Proof. unfold bump; simpl. f_equal. lia. Qed.

(** What a run of the loop that ends after [j] rounds went through: every
    earlier candidate was taken, the last one is free, and the loop gives up
    after [fuel] rounds when it is allowed [fuel ≤ j] checks only. *)
Lemma username_loop_trace fuel origName name changed s result j :
  appendToMakeUnique s + Z.of_nat j < 2 ^ 53 →
  username_loop fuel origName name changed s = (Normal result, bump j s) →
  result = (candidate origName name s j, match j with O => changed | S _ => true end) ∧
  (∀ i, (i < j)%nat →
     isUsernameUnique_loop (connectionArray s) (candidate origName name s i) = false) ∧
  isUsernameUnique_loop (connectionArray s) (candidate origName name s j) = true ∧
  (∀ fuel', (fuel' ≤ j)%nat →
     username_loop fuel' origName name changed s = (OutOfFuel, bump fuel' s)) ∧
  username_loop (S j) origName name changed s = (Normal result, bump j s).
Proof.
  revert name changed s j.
  induction fuel as [|fuel IH]; intros name changed s j Hroom; [done|].
  destruct (isUsernameUnique_loop (connectionArray s) name) eqn:Hu.
  - cbn [username_loop]. unfold_monad. rewrite Hu. intros [= <- Hs].
    assert (j = 0%nat) as ->.
    { apply (f_equal appendToMakeUnique) in Hs. simpl in Hs. lia. }
    simpl. split_and!; try done.
    + intros i Hi. lia.
    + intros fuel' Hf. assert (fuel' = 0%nat) as -> by lia. by rewrite bump_0.
    + by rewrite bump_0.
  - rewrite username_loop_round by (done || lia). intros Hrun.
    destruct (username_loop_frame _ _ _ _ _ _ _ Hrun) as [j' Hs].
    rewrite bump_bump in Hs.
    assert (j = S j') as ->.
    { apply (f_equal appendToMakeUnique) in Hs. simpl in Hs. lia. }
    change (bump (S j') s) with (bump (1 + j') s) in Hrun.
    rewrite <- bump_bump in Hrun.
    apply IH in Hrun as (Hres & Hbefore & Hlast & Hshort & Hexact);
      [|simpl; lia].
    rewrite (candidate_round _ name) in Hres, Hlast. simpl in Hbefore.
    split_and!.
    + rewrite Hres. by destruct j'.
    + intros [|i] Hi; [done|]. rewrite <- candidate_round. apply Hbefore. lia.
    + done.
    + intros [|fuel'] Hf; [by rewrite bump_0|].
      rewrite username_loop_round by (done || lia).
      rewrite Hshort by lia. by rewrite bump_bump.
    + rewrite username_loop_round by (done || lia).
      rewrite Hexact. by rewrite bump_bump.
Qed.

(** The candidates of a run are pairwise different. *)
Lemma candidates_distinct origName s i i' :
  numeric origName = false →
  (i < i')%nat →
  isUsernameUnique_loop (connectionArray s) (candidate origName origName s i) = false →
  candidate origName origName s i ≠ candidate origName origName s i'.
Proof.
  intros Horig Hlt Htaken Heq.
  assert (numeric (candidate origName origName s i) = false
          ∨ candidate origName origName s i = JNaN) as Hplain.
  { destruct i; simpl; [by left|by apply js_add_plain]. }
  apply taken_elem_of in Htaken as [_ Hnan]; [|done].
  destruct i' as [|i']; [lia|]. destruct i as [|i]; simpl in *.
  - symmetry in Heq. by apply js_add_ne_orig in Heq.
  - apply js_add_inj in Heq; [lia|done|done].
Qed.

(** ** Numbers as names *)

(** Rounding a sum keeps a mantissa that is not negative that way. *)
Lemma shr_1_nonneg mrs : 0 ≤ shr_m mrs → 0 ≤ shr_m (shr_1 mrs).
Proof. destruct mrs as [[|[p|p|]|[p|p|]] r t]; simpl; lia. Qed.

Lemma iter_pos_shr_1_nonneg p mrs :
  0 ≤ shr_m mrs → 0 ≤ shr_m (SpecFloat.iter_pos shr_1 p mrs).
Proof.
  revert mrs. induction p as [p IH|p IH|]; intros mrs Hm; simpl.
  - apply IH, IH. by apply shr_1_nonneg.
  - by apply IH, IH.
  - by apply shr_1_nonneg.
Qed.

Lemma shr_fexp_nonneg m e l :
  0 ≤ m → 0 ≤ shr_m (shr_fexp 53 1024 m e l).1.
Proof.
  intros Hm. unfold shr_fexp, shr.
  assert (0 ≤ shr_m (shr_record_of_loc m l)) as Hrec.
  { by destruct l as [|[]]. }
  destruct (_ - e) as [|p|p]; simpl; try done.
  by apply iter_pos_shr_1_nonneg.
Qed.

Lemma round_nearest_even_nonneg m l : 0 ≤ m → 0 ≤ round_nearest_even m l.
Proof.
  intros Hm. destruct l as [|[]]; simpl; try lia.
  destruct (Z.even m); lia.
Qed.

(** A counter value is never [NaN] or [-Infinity] as a double. *)
Lemma of_Z_positive k :
  0 ≤ k → of_Z k ≠ S754_nan ∧ of_Z k ≠ S754_infinity true.
Proof.
  intros Hk. unfold of_Z, binary_normalize.
  destruct k as [|m|m]; [done| |lia].
  unfold binary_round. destruct (shl_align _ _ _) as [mz ez].
  unfold binary_round_aux.
  pose proof (shr_fexp_nonneg (Z.pos mz) ez loc_Exact) as H1.
  destruct (shr_fexp 53 1024 (Z.pos mz) ez loc_Exact) as [mrs' e'].
  pose proof (shr_fexp_nonneg
                (round_nearest_even (shr_m mrs') (loc_of_shr_record mrs')) e'
                loc_Exact) as H2.
  destruct (shr_fexp 53 1024 _ e' loc_Exact) as [mrs'' e''].
  simpl in H1, H2.
  destruct (shr_m mrs'') as [|q|q] eqn:Hq.
  - done.
  - by destruct (e'' <=? _).
  - exfalso. assert (0 ≤ Z.neg q); [|lia].
    apply H2, round_nearest_even_nonneg, H1. lia.
Qed.

(** [Infinity + k] is [Infinity]. *)
Lemma infinity_absorbs k : 0 ≤ k → js_add JInfinity k = JInfinity.
Proof.
  intros [Hnan Hinf]%of_Z_positive. unfold js_add, number_add, SFadd.
  by destruct (of_Z k) as [t|[]| |t m e].
Qed.

(** Once a connection is named [Infinity], a request for that name keeps
    the loop going for as long as it is allowed to. *)
Lemma username_loop_infinity fuel changed s :
  JInfinity ∈ username <$> connectionArray s →
  0 ≤ appendToMakeUnique s →
  (username_loop fuel JInfinity JInfinity changed s).1 = OutOfFuel.
Proof.
  intros Hheld. revert changed s Hheld.
  induction fuel as [|fuel IH]; intros changed s Hheld Hk; [done|].
  cbn [username_loop]. unfold_monad.
  assert (isUsernameUnique_loop (connectionArray s) JInfinity = false) as ->.
  { apply isUsernameUnique_loop_false.
    apply list_elem_of_fmap in Hheld as (c & Hc & Hin).
    exists c. split; [done|]. by rewrite <- Hc. }
  rewrite infinity_absorbs by done.
  apply IH; simpl; [done|]. pose proof (js_incr_le (appendToMakeUnique s)). lia.
Qed.

(** ** The name allocator *)

(** C7, as worded, fails: the name of a request is whatever [JSON.parse]
    made of it, and for a number the retry adds the counter to it.  Once a
    connection is named [Infinity] (the value of [1e999]) a second request
    for that name never comes back: every retry gives [Infinity] again, and
    the handler uses up whatever number of checks it is allowed. *)
Lemma numeric_name_counterexample :
  ∃ s, run 2 [Request "http://localhost:3000" "::1";
              Message (numeric_username_request 1 "1e999" (S754_infinity false))]
         (initial 1) = (Normal tt, s) ∧
       username <$> connectionArray s = [JInfinity] ∧
       ∀ fuel,
         (username_loop fuel JInfinity JInfinity false s).1 = OutOfFuel ∧
         (on_message fuel
            (numeric_username_request 1 "1e999" (S754_infinity false)) s).1
           = OutOfFuel.
Proof.
  eexists. split; [by vm_compute|]. split; [done|]. intros fuel.
  split.
  - apply username_loop_infinity; simpl; [|lia]. apply list_elem_of_here.
  - unfold numeric_username_request, on_message. unfold_monad. simpl.
    set (s0 := Server _ _ _ _ _).
    pose proof (username_loop_infinity fuel false s0) as Hloop.
    destruct (username_loop fuel JInfinity JInfinity false s0) as [[r| |] s1];
      simpl in Hloop |- *; try done.
    + exfalso. assert (Normal r = OutOfFuel) by (apply Hloop; simpl;
        [apply list_elem_of_here|lia]). done.
    + exfalso. assert (@Throw (jsval * bool) e = OutOfFuel) by (apply Hloop; simpl;
        [apply list_elem_of_here|lia]). done.
Qed.

(** C7, amended. For every username request whose name is a string, an
    array, an object or absent, handled with [n] connections in the
    registry while the counter is more than [n] below 2^53, the renaming
    loop ends after at most [n + 1] evaluations of its condition
    [isUsernameUnique].  It goes through a number [j ≤ n] of rounds: allowed
    more than [j] checks it returns candidate [j]; allowed [fuel ≤ j] checks
    it is still running after them, with the counter [fuel] higher.  Round
    [i] tries the original name followed by the counter value
    [appendToMakeUnique + i] (for a string name, the string followed by
    the decimal digits of that value); the candidates before the last are
    all taken
    and all different from the later ones; the last one equals the name of
    no connection in the registry.  The counter ends [j] higher and no event
    ever lowers it. *)
Theorem username_loop_converges (origName : jsval) (s : server) :
  numeric origName = false →
  appendToMakeUnique s + Z.of_nat (length (connectionArray s)) < 2 ^ 53 →
  ∃ j : nat,
    (j ≤ length (connectionArray s))%nat ∧
    (∀ fuel, (j < fuel)%nat →
       username_loop fuel origName origName false s =
         (Normal (candidate origName origName s j,
                  match j with O => false | S _ => true end),
          bump j s)) ∧
    (∀ fuel, (fuel ≤ j)%nat →
       username_loop fuel origName origName false s = (OutOfFuel, bump fuel s)) ∧
    (∀ i, (i < j)%nat →
       isUsernameUnique_loop (connectionArray s) (candidate origName origName s i)
         = false ∧
       ∀ i', (i < i')%nat →
         candidate origName origName s i ≠ candidate origName origName s i') ∧
    (∀ t i, origName = JString t →
       candidate origName origName s (S i)
       = JString (t +:+ pretty (appendToMakeUnique s + Z.of_nat i))) ∧
    (∀ c, c ∈ connectionArray s →
       strict_eq (username c) (candidate origName origName s j) = false) ∧
    (∀ fuel e r s', step fuel e s = (r, s') →
       appendToMakeUnique s ≤ appendToMakeUnique s').
Proof.
  intros Horig Hroom.
  destruct (username_loop_top (S (length (connectionArray s))) origName s)
    as (j & Hj & Hrun & Hu & _); [done|lia|lia|].
  apply username_loop_trace in Hrun as (_ & Hbefore & _ & Hshort & Hexact); [|lia].
  exists j. split_and!; [done| |done| | | |].
  - intros fuel Hfuel. eapply username_loop_more_fuel; [done|lia].
  - intros i Hi. split; [by apply Hbefore|].
    intros i' Hi'. apply candidates_distinct; auto.
  - by intros t i ->.
  - by apply isUsernameUnique_loop_true.
  - intros fuel e r s'. apply step_counter_monotone.
Qed.

Lemma username_loop_converges_witness :
  ∃ j : nat,
    (j ≤ length (connectionArray two_users_state))%nat ∧
    (∀ fuel, (j < fuel)%nat →
       username_loop fuel (JString "alice") (JString "alice") false two_users_state =
         (Normal (candidate (JString "alice") (JString "alice") two_users_state j,
                  match j with O => false | S _ => true end),
          bump j two_users_state)) ∧
    (∀ fuel, (fuel ≤ j)%nat →
       username_loop fuel (JString "alice") (JString "alice") false two_users_state
         = (OutOfFuel, bump fuel two_users_state)) ∧
    (∀ i, (i < j)%nat →
       isUsernameUnique_loop (connectionArray two_users_state)
         (candidate (JString "alice") (JString "alice") two_users_state i) = false ∧
       ∀ i', (i < i')%nat →
         candidate (JString "alice") (JString "alice") two_users_state i
         ≠ candidate (JString "alice") (JString "alice") two_users_state i') ∧
    (∀ t i, JString "alice" = JString t →
       candidate (JString "alice") (JString "alice") two_users_state (S i)
       = JString (t +:+ pretty (appendToMakeUnique two_users_state + Z.of_nat i))) ∧
    (∀ c, c ∈ connectionArray two_users_state →
       strict_eq (username c)
         (candidate (JString "alice") (JString "alice") two_users_state j) = false) ∧
    (∀ fuel e r s', step fuel e two_users_state = (r, s') →
       appendToMakeUnique two_users_state ≤ appendToMakeUnique s').
Proof.
  apply (username_loop_converges (JString "alice") two_users_state);
    [reflexivity|by vm_compute].
Defined.

(** With alice and alice1 taken and the counter at 2, a third request for
    alice takes two checks: alice is taken, alice2 is free. *)
Example username_loop_third :
  username_loop 3 (JString "alice") (JString "alice") false two_users_state
  = (Normal (JString "alice2", true), bump 1 two_users_state).
Proof. by vm_compute. Qed.

(** ** Usernames that are equal *)

Lemma SFeqb_sym x y : SFeqb x y = SFeqb y x.
Proof.
  unfold SFeqb.
  destruct x as [sx|sx| |sx mx ex], y as [sy|sy| |sy my ey]; simpl;
    try done; try (by destruct sx, sy); try (by destruct sx); try (by destruct sy).
  destruct sx, sy; try done.
  - rewrite (Z.compare_antisym ex ey), (ZC4 my mx).
    by destruct (ex ?= ey), (Pos.compare_cont Eq mx my).
  - rewrite (Z.compare_antisym ex ey), (ZC4 my mx).
    by destruct (ex ?= ey), (Pos.compare_cont Eq mx my).
Qed.

Lemma strict_eq_sym a b : strict_eq a b = strict_eq b a.
Proof.
  destruct a, b; simpl; try done.
  - apply bool_decide_ext. naive_solver.
  - apply SFeqb_sym.
  - apply bool_decide_ext. naive_solver.
Qed.

Lemma StronglySorted_sublist {A} (R : relation A) (l k : list A) :
  l `sublist_of` k → StronglySorted R k → StronglySorted R l.
Proof.
  induction 1 as [|x l k Hsub IH|x l k Hsub IH]; [done| |].
  - rewrite !StronglySorted_cons. intros [Hall Hk]. split; [|by apply IH].
    rewrite Forall_forall in Hall |- *. intros y Hy. apply Hall.
    by eapply elem_of_sublist.
  - rewrite StronglySorted_cons. intros [_ Hk]. by apply IH.
Qed.

Lemma StronglySorted_lookup {A} (R : relation A) (l : list A) (i j : nat) x y :
  StronglySorted R l → l !! i = Some x → l !! j = Some y → (i < j)%nat → R x y.
Proof.
  revert i j. induction l as [|a l IH]; intros i j Hl Hi Hj Hlt; [done|].
  apply StronglySorted_cons in Hl as [Hall Hl].
  destruct j as [|j]; [lia|]. destruct i as [|i]; simpl in Hi, Hj.
  - injection Hi as ->. rewrite Forall_forall in Hall. apply Hall.
    by eapply list_elem_of_lookup_2.
  - apply (IH i j); [done..|lia].
Qed.

(** Giving a connection a name that nobody holds keeps the usernames
    apart. *)
Lemma apart_alter (rest : list connection) (i : nat) g :
  isUsernameUnique_loop rest g = true →
  StronglySorted apart rest →
  StronglySorted apart (alter (set_username g) i rest).
Proof.
  revert i. induction rest as [|c rest IH]; intros i Hu Hs; [done|].
  simpl in Hu. destruct (strict_eq (username c) g) eqn:Hc; [done|].
  apply StronglySorted_cons in Hs as [Hall Hs].
  destruct i as [|i]; simpl; apply StronglySorted_cons.
  - split; [|done]. apply Forall_forall. intros c' Hc' Heq. simpl in Heq.
    rewrite strict_eq_sym in Heq.
    rewrite isUsernameUnique_loop_true in Hu. by rewrite (Hu c' Hc') in Heq.
  - split; [|by apply IH]. apply Forall_alter; [done|].
    intros c' _ _ Heq. simpl in Heq. by rewrite Hc in Heq.
Qed.

Lemma apart_request (rest : list connection) id address :
  StronglySorted apart rest →
  StronglySorted apart (rest ++ [Connection id JUndefined true address]).
Proof.
  intros Hs. apply StronglySorted_app_2; [|done|repeat constructor].
  intros c c' _ ->%list_elem_of_singleton Heq. simpl in *.
  by apply strict_eq_undefined in Heq.
Qed.

Lemma apart_mark_down id (rest : list connection) :
  StronglySorted apart rest → StronglySorted apart (mark_down id <$> rest).
Proof.
  apply StronglySorted_fmap. intros c c'. unfold apart, mark_down.
  by destruct (bool_decide (clientID c = id)), (bool_decide (clientID c' = id)).
Qed.

Lemma apart_step fuel e s s' :
  StronglySorted apart (connectionArray s) →
  step fuel e s = (Normal tt, s') →
  StronglySorted apart (connectionArray s').
Proof.
  intros Hs. destruct e as [origin address|message|id|id address reason description];
    simpl.
  - rewrite on_request_run. intros [= <-]. simpl. by apply apart_request.
  - intros (_ & _ & [->|(i & g & Hu & ->)])%on_message_registry; [done|].
    by apply apart_alter.
  - rewrite transport_down_run. intros [= <-]. simpl. by apply apart_mark_down.
  - unfold mbind, M_bind. rewrite transport_down_run, on_close_run.
    intros [= <-]. simpl.
    eapply StronglySorted_sublist; [apply sublist_filter|].
    by apply apart_mark_down.
Qed.

Lemma reachable_apart s : reachable s → StronglySorted apart (connectionArray s).
Proof.
  induction 1 as [now Hnow|s e fuel s' _ IH Hstep]; [constructor|].
  by eapply apart_step.
Qed.

(** ** Uniqueness of display names *)

Lemma two_users_reachable : reachable two_users_state.
Proof.
  apply (run_reachable 3 two_users (initial 1)); [|by vm_compute].
  apply reachable_initial. unfold time_value. lia.
Qed.

Lemma one_user_reachable : reachable one_user_state.
Proof.
  apply (run_reachable 2 one_user (initial 1)); [|by vm_compute].
  apply reachable_initial. unfold time_value. lia.
Qed.

Lemma carol_down_reachable : reachable carol_down_state.
Proof.
  apply (run_reachable 1 carol_down (initial 1)); [|by vm_compute].
  apply reachable_initial. unfold time_value. lia.
Qed.

Lemma NoDup_omap_lookup_inj {A B} (f : A → option B) (l : list A)
    (i j : nat) x y b :
  NoDup (omap f l) →
  l !! i = Some x → l !! j = Some y → f x = Some b → f y = Some b → i = j.
Proof.
  revert i j. induction l as [|a l IH]; intros i j Hnd Hi Hj Hx Hy; [done|].
  assert (NoDup (omap f l)) as Hrest.
  { simpl in Hnd. destruct (f a); [by apply NoDup_cons in Hnd as []|done]. }
  assert (∀ k z, l !! k = Some z → f a = Some b → f z = Some b → False) as Hhead.
  { intros k z Hk Ha Hz. simpl in Hnd. rewrite Ha in Hnd.
    apply NoDup_cons in Hnd as [Hnotin _]. apply Hnotin.
    apply list_elem_of_omap. exists z. split; [|done].
    by eapply list_elem_of_lookup_2. }
  destruct i as [|i], j as [|j]; simpl in Hi, Hj; simplify_eq.
  - done.
  - exfalso. by eapply Hhead.
  - exfalso. by eapply Hhead.
  - f_equal. by eapply IH.
Qed.

(** C1, as worded, fails.  The empty string is granted as a name when
    nobody holds it.  And sessions can share a name that is not a string:
    two clients that each send a username request without a [name] are both
    named [NaN] (the user list then reads [null, null]), and two clients
    that each ask for the name [[]] both get it, since [===] never equates
    two arrays. *)
Lemma names_distinct_nonempty_counterexample :
  (∃ s, run 1 [Request "http://localhost:3000" "::1";
               Message (wire (username_request 1 ""))] (initial 1) = (Normal tt, s) ∧
        username <$> connectionArray s = [JString ""] ∧
        ¬ names_distinct_nonempty s) ∧
  (∃ s, run 2 [Request "http://localhost:3000" "::1";
               Request "http://localhost:3000" "::2";
               Message (wire (nameless_request 1));
               Message (wire (nameless_request 2))] (initial 1) = (Normal tt, s) ∧
        username <$> connectionArray s = [JNaN; JNaN] ∧
        ¬ names_distinct_nonempty s) ∧
  (∃ s, run 1 [Request "http://localhost:3000" "::1";
               Request "http://localhost:3000" "::2";
               Message (wire (array_request 1));
               Message (wire (array_request 2))] (initial 1) = (Normal tt, s) ∧
        username <$> connectionArray s = [JObject "[]" ""; JObject "[]" ""] ∧
        ¬ names_distinct_nonempty s).
Proof.
  split_and!; eexists; (split; [by vm_compute|]); (split; [done|]).
  - intros [_ Hall]. apply Forall_cons in Hall as [(t & Ht & Hne) _].
    simpl in Ht. by simplify_eq.
  - intros [Hnd _]. simpl in Hnd.
    apply NoDup_cons in Hnd as [Hnotin _]. apply Hnotin, list_elem_of_here.
  - intros [Hnd _]. simpl in Hnd.
    apply NoDup_cons in Hnd as [Hnotin _]. apply Hnotin, list_elem_of_here.
Qed.

(** C1, amended. For every sequence of events (connections, messages of any
    kind, lost connections, closes) and at every point between two events,
    no two sessions of the registry have usernames that [===] equates,
    unless neither has a username yet.  So the usernames that are strings
    are pairwise different: the list of the string usernames of the registry
    has no duplicates, that is, two different places of the registry never
    hold the same string.  (A string name can be empty; a session has no
    name before its first username message; two values that [===] does not
    equate, [NaN] and [NaN], or two arrays, can be shared.) *)
Theorem names_distinct (s : server) :
  reachable s →
  NoDup (omap display_name (connectionArray s)) ∧
  (∀ (i j : nat) ci cj t,
     connectionArray s !! i = Some ci → connectionArray s !! j = Some cj →
     username ci = JString t → username cj = JString t → i = j) ∧
  (∀ (i j : nat) ci cj,
     connectionArray s !! i = Some ci → connectionArray s !! j = Some cj →
     i ≠ j → strict_eq (username ci) (username cj) = true →
     username ci = JUndefined ∧ username cj = JUndefined).
Proof.
  intros Hs. destruct (reachable_invariant s Hs) as [Hnames _ _].
  split_and!; [done| |].
  - intros i j ci cj t Hi Hj Hci Hcj.
    apply (NoDup_omap_lookup_inj display_name (connectionArray s) i j ci cj t);
      try done; unfold display_name; by rewrite ?Hci, ?Hcj.
  - intros i j ci cj Hi Hj Hne Heq.
    pose proof (reachable_apart s Hs) as Hapart.
    destruct (Nat.lt_total i j) as [Hlt|[->|Hlt]]; [|done|].
    + by apply (StronglySorted_lookup apart _ i j ci cj Hapart).
    + rewrite strict_eq_sym in Heq.
      by destruct (StronglySorted_lookup apart _ j i cj ci Hapart Hj Hi Hlt Heq).
Qed.

Lemma names_distinct_witness :
  NoDup (omap display_name (connectionArray two_users_state)) ∧
  (∀ (i j : nat) ci cj t,
     connectionArray two_users_state !! i = Some ci →
     connectionArray two_users_state !! j = Some cj →
     username ci = JString t → username cj = JString t → i = j) ∧
  (∀ (i j : nat) ci cj,
     connectionArray two_users_state !! i = Some ci →
     connectionArray two_users_state !! j = Some cj →
     i ≠ j → strict_eq (username ci) (username cj) = true →
     username ci = JUndefined ∧ username cj = JUndefined).
Proof. apply (names_distinct two_users_state), two_users_reachable. Defined.

(** ** Relaying *)

Lemma directed_to_relayed s msg msg' :
  relayed_as s msg msg' → directed_to msg' = directed_to msg.
Proof. by destruct 1. Qed.

(** A relayed message is logged and handed to the send block. *)
Lemma on_message_relay fuel utf8Data msg msg' s :
  relayed_as s msg msg' →
  on_message fuel (Utf8Message utf8Data (Some msg)) s =
  send_to_clients msg' (logging s ("Received Message: " +:+ utf8Data)).
Proof.
  destruct 1 as [src|o Hm Hu|o i c text Hm Hfind Htext]; simpl; unfold_monad.
  - done.
  - by rewrite !bool_decide_eq_false_2.
  - by rewrite Hfind, Htext, Hm.
Qed.

Lemma find_target_None (rest : list connection) target :
  (∀ c, c ∈ rest → username c ≠ JString target) →
  list_find (λ conn, strict_eq (username conn) (JString target)) rest = None.
Proof.
  intros Hnone. apply list_find_None, Forall_forall. intros c Hc Heq.
  apply Is_true_true, strict_eq_string in Heq. by apply (Hnone c).
Qed.

(** C2, as worded, fails: a pass-through message for a name that nobody
    holds makes the handler throw. *)
Lemma unresolvable_target_counterexample :
  (∀ c, c ∈ connectionArray one_user_state → username c ≠ JString "carol") ∧
  (on_message 2 (wire (signal 1 "video-offer" (Some "carol"))) one_user_state).1
    = Throw TypeError ∧
  ¬ silently_dropped 2 (wire (signal 1 "video-offer" (Some "carol"))) one_user_state.
Proof.
  split_and!.
  - intros c [->|[]%elem_of_nil]%elem_of_cons. done.
  - by vm_compute.
  - intros (s' & Hrun & _). vm_compute in Hrun. done.
Qed.

(** C2, amended. For every chat or pass-through message with a non-empty
    [target] that is the display name of no connection, nothing is delivered,
    no error is sent to the sender and the registry stays as it was, but the
    handler does not return: after logging the frame it throws a
    [TypeError], which nothing catches. *)
Theorem unresolvable_target_throws (fuel : nat) (utf8Data : string)
    (o : message_object) (target : string) (s : server) :
  msg_type o ≠ Some "username" →
  directed_to (JsonObject o) = Some target →
  (∀ c, c ∈ connectionArray s → username c ≠ JString target) →
  on_message fuel (Utf8Message utf8Data (Some (JsonObject o))) s =
    (Throw TypeError, logging s ("Received Message: " +:+ utf8Data)).
Proof.
  intros Hu Hdir Hnone.
  destruct (decide (msg_type o = Some "message")) as [Hm|Hm].
  - destruct (list_find (λ c, Some (clientID c) = msg_id o) (connectionArray s))
      as [[i c]|] eqn:Hfind; [destruct (msg_text o) as [text|] eqn:Htext|].
    + erewrite on_message_relay by (by eapply relayed_chat).
      rewrite send_to_clients_run.
      change (directed_to _) with (directed_to (JsonObject o)). rewrite Hdir.
      simpl. by rewrite find_target_None.
    + simpl. unfold_monad. by rewrite Hfind, Hm, Htext.
    + simpl. unfold_monad. by rewrite Hfind, Hm.
  - erewrite on_message_relay by (by apply relayed_opaque).
    rewrite send_to_clients_run, Hdir. simpl. by rewrite find_target_None.
Qed.

Lemma unresolvable_target_throws_witness :
  on_message 2 (Utf8Message (json_text (signal 1 "video-offer" (Some "carol")))
                  (Some (signal 1 "video-offer" (Some "carol")))) one_user_state =
    (Throw TypeError,
     logging one_user_state
       ("Received Message: " +:+ json_text (signal 1 "video-offer" (Some "carol")))).
Proof.
  apply (unresolvable_target_throws 2 _
           (MessageObject (Some 1) (Some "video-offer") JUndefined None (Some "carol") "")
           "carol" one_user_state).
  - done.
  - reflexivity.
  - intros c [->|[]%elem_of_nil]%elem_of_cons. done.
Defined.

(** ** Malformed frames *)

(** C3, as worded, fails: text that is not JSON makes the handler throw, and
    an object with neither [id] nor [type] is not dropped but relayed to
    every connection. *)
Lemma malformed_frame_counterexample :
  (on_message 1 (Utf8Message "{" None) one_user_state).1 = Throw SyntaxError ∧
  ¬ silently_dropped 1 (Utf8Message "{" None) one_user_state ∧
  (let empty_object := JsonObject (MessageObject None None JUndefined None None "") in
   ∃ s', on_message 1 (wire empty_object) one_user_state = (Normal tt, s') ∧
         sent s' = sent one_user_state ++ [(1, RelayFrame empty_object)] ∧
         ¬ silently_dropped 1 (wire empty_object) one_user_state).
Proof.
  split_and!.
  - by vm_compute.
  - intros (s' & Hrun & _). vm_compute in Hrun. done.
  - eexists. split_and!; [by vm_compute|by vm_compute|].
    intros (s' & Hrun & Hsent & _). vm_compute in Hrun.
    injection Hrun as <-. vm_compute in Hsent. done.
Qed.

(** C3, amended. A text frame that does not have the expected shape is
    logged, and then the handler does not return.  When the text is not
    valid JSON it throws the [SyntaxError] of [JSON.parse]; when it is the
    value [null], a chat message whose [id] is that of no connection or a
    chat message without a [text], it throws a [TypeError]; in these cases
    the log line is all it has done.  On a username message whose [id] is
    that of no connection (and whose [name] is not [null], a boolean or a
    number) it throws a [TypeError] after the renaming loop, which may have
    raised the suffix counter.  Nothing catches these; nothing is written to
    a connection and the registry stays as it was.  A value that is no
    object, and an object without [target] whose [type] is missing or
    unknown, is not dropped: it is logged and relayed to every connection
    of the registry. *)
Theorem malformed_frame_throws (fuel : nat) (utf8Data : string) (s : server) :
  (length (connectionArray s) < fuel)%nat →
  appendToMakeUnique s + Z.of_nat (length (connectionArray s)) ≤ 2 ^ 53 →
  (∀ parsed e, malformed s parsed e →
     on_message fuel (Utf8Message utf8Data parsed) s =
       (Throw e, logging s ("Received Message: " +:+ utf8Data))) ∧
  (∀ o, msg_type o = Some "username" →
     list_find (λ c, Some (clientID c) = msg_id o) (connectionArray s) = None →
     numeric (msg_name o) = false →
     ∃ j, (j ≤ length (connectionArray s))%nat ∧
       on_message fuel (Utf8Message utf8Data (Some (JsonObject o))) s =
         (Throw TypeError, bump j (logging s ("Received Message: " +:+ utf8Data)))) ∧
  (∀ msg, passed_through msg →
     on_message fuel (Utf8Message utf8Data (Some msg)) s =
       (Normal tt,
        sending (logging s ("Received Message: " +:+ utf8Data))
          (deliveries (connectionArray s) (RelayFrame msg)))).
Proof.
  intros Hfuel Hroom. split_and!.
  - intros parsed e [| |o Hty Hfind|o Hty Htext]; try done.
    + simpl. unfold_monad. by rewrite Hfind, Hty.
    + simpl. unfold_monad. rewrite Hty, Htext. simpl.
      by destruct (list_find _ _) as [[? ?]|].
  - intros o Hty Hfind Hname. simpl. unfold_monad. rewrite Hfind, Hty. simpl.
    destruct (username_loop_top fuel (msg_name o)
                (logging s ("Received Message: " +:+ utf8Data)))
      as (j & Hj & Hrun & _); [done|done|done|].
    exists j. split; [done|].
    unfold logging in Hrun |- *. rewrite Hrun. by destruct j.
  - intros msg [src|o Hm Hu Hdir].
    + erewrite on_message_relay by apply relayed_other.
      by rewrite send_to_clients_run.
    + erewrite on_message_relay by (by apply relayed_opaque).
      by rewrite send_to_clients_run, Hdir.
Qed.

Lemma malformed_frame_throws_witness :
  (∀ parsed e, malformed one_user_state parsed e →
     on_message 2 (Utf8Message "{" parsed) one_user_state =
       (Throw e, logging one_user_state ("Received Message: " +:+ "{"))) ∧
  (∀ o, msg_type o = Some "username" →
     list_find (λ c, Some (clientID c) = msg_id o) (connectionArray one_user_state)
       = None →
     numeric (msg_name o) = false →
     ∃ j, (j ≤ length (connectionArray one_user_state))%nat ∧
       on_message 2 (Utf8Message "{" (Some (JsonObject o))) one_user_state =
         (Throw TypeError,
          bump j (logging one_user_state ("Received Message: " +:+ "{")))) ∧
  (∀ msg, passed_through msg →
     on_message 2 (Utf8Message "{" (Some msg)) one_user_state =
       (Normal tt,
        sending (logging one_user_state ("Received Message: " +:+ "{"))
          (deliveries (connectionArray one_user_state) (RelayFrame msg)))).
Proof.
  apply (malformed_frame_throws 2 "{" one_user_state).
  - vm_compute. lia.
  - by vm_compute.
Defined.

(** ** Username requests *)

Lemma NoDup_fmap_elem_inj {A B} (f : A → B) (l : list A) x y :
  NoDup (f <$> l) → x ∈ l → y ∈ l → f x = f y → x = y.
Proof.
  induction l as [|a l IH]; csimpl; [by intros _ ?%elem_of_nil|].
  intros [Ha Hl]%NoDup_cons [->|Hx]%elem_of_cons [->|Hy]%elem_of_cons Heq; auto.
  - destruct Ha. rewrite Heq. by apply list_elem_of_fmap_2.
  - destruct Ha. rewrite <- Heq. by apply list_elem_of_fmap_2.
Qed.


(** In a reachable state a [clientID] names one connection, as long as
    [nextID] has not reached 2^53. *)
Lemma reachable_id_names_one s c c' :
  reachable s → nextID s < 2 ^ 53 →
  c ∈ connectionArray s → c' ∈ connectionArray s →
  clientID c' = clientID c → c' = c.
Proof.
  intros [_ Hids _]%reachable_invariant Hroom Hc Hc' Heq.
  eapply (NoDup_fmap_elem_inj clientID); [by apply Hids|done..].
Qed.

(** The loop changes the name exactly when the request is taken. *)
Lemma candidate_changed origName s j :
  numeric origName = false →
  isUsernameUnique_loop (connectionArray s) (candidate origName origName s j) = true →
  (j = 0%nat ↔ isUsernameUnique_loop (connectionArray s) origName = true) →
  candidate origName origName s j ≠ origName ↔ j ≠ 0%nat.
Proof.
  intros Horig Hu Hiff. destruct j as [|j]; simpl; [by split; intros []|].
  split; [done|]. intros _. by apply js_add_ne_orig.
Qed.

(** C4, as worded, fails: bob asks for the name bob, which is his own and
    nobody else's, and is renamed bob1. *)
Lemma own_name_counterexample :
  let requester := Connection 1 (JString "bob") true "::1" in
  connectionArray one_user_state = [requester] ∧
  (∃ s', on_message 2 (wire (username_request 1 "bob")) one_user_state = (Normal tt, s') ∧
         username <$> connectionArray s' = [JString "bob1"]) ∧
  ¬ renamed_only_if_empty_or_held_by_other 2 (username_object 1 "bob") 0 requester
      one_user_state.
Proof.
  split_and!.
  - done.
  - eexists. split; by vm_compute.
  - intros Hclaim.
    edestruct Hclaim as [Hempty|(other & Hin & Hid & _)].
    + by vm_compute.
    + reflexivity.
    + done.
    + done.
    + apply list_elem_of_singleton in Hin as ->. done.
Qed.

(** C4, amended. For every username request whose [id] is that of a
    connection and whose [name] is a string, an array, an object or absent,
    handled while the suffix counter has room below 2^53: the granted name
    differs from the requested one exactly when the requested name is at
    that moment the name of some connection in the registry, the
    requester's own included; the empty string is a name like any other.
    So a request for the requester's own current name is granted with a
    suffix.  A granted name that differs is the requested string followed
    by the decimal digits of a value that the suffix counter went through
    during the request ([NaN] when the request had no name).  Every such
    request ends with the user list being sent to the whole registry. *)
Theorem renamed_iff_held (fuel : nat) (utf8Data : string) (o : message_object)
    (i : nat) (c : connection) (s : server) :
  msg_type o = Some "username" →
  list_find (λ c, Some (clientID c) = msg_id o) (connectionArray s) = Some (i, c) →
  numeric (msg_name o) = false →
  (length (connectionArray s) < fuel)%nat →
  appendToMakeUnique s + Z.of_nat (length (connectionArray s)) ≤ 2 ^ 53 →
  ∃ granted s',
    on_message fuel (Utf8Message utf8Data (Some (JsonObject o))) s = (Normal tt, s') ∧
    connectionArray s' = alter (set_username granted) i (connectionArray s) ∧
    connectionArray s' !! i = Some (set_username granted c) ∧
    (granted ≠ msg_name o ↔
     ∃ holder, holder ∈ connectionArray s ∧
               strict_eq (username holder) (msg_name o) = true) ∧
    (granted = msg_name o ∨
     ∃ k, appendToMakeUnique s ≤ k < appendToMakeUnique s' ∧
          (∀ t, msg_name o = JString t → granted = JString (t +:+ pretty k)) ∧
          (msg_name o = JUndefined → granted = JNaN)) ∧
    ∃ notice, sent s' = sent s ++ notice ++ roster s'.
Proof.
  intros Hty Hfind Hname Hfuel Hroom.
  destruct (on_message_username fuel utf8Data o i c s Hty Hfind Hname Hfuel Hroom)
    as (j & _ & Hu & Hiff & Hrun).
  eexists _, _. split; [exact Hrun|]. simpl. split_and!.
  - done.
  - apply list_find_Some in Hfind as (Hi & _).
    by rewrite list_lookup_alter_eq, Hi.
  - rewrite candidate_changed by done.
    rewrite <- isUsernameUnique_loop_false, Hiff. apply not_true_iff_false.
  - destruct j as [|j]; [by left|]. right. simpl.
    exists (appendToMakeUnique s + Z.of_nat j). split_and!; [lia|lia| |].
    + by intros t ->.
    + by intros ->.
  - by eexists.
Qed.

Lemma renamed_iff_held_witness :
  ∃ granted s',
    on_message 2 (Utf8Message (json_text (username_request 1 "bob"))
                    (Some (JsonObject (username_object 1 "bob")))) one_user_state
      = (Normal tt, s') ∧
    connectionArray s' = alter (set_username granted) 0%nat (connectionArray one_user_state) ∧
    connectionArray s' !! 0%nat
      = Some (set_username granted (Connection 1 (JString "bob") true "::1")) ∧
    (granted ≠ msg_name (username_object 1 "bob") ↔
     ∃ holder, holder ∈ connectionArray one_user_state ∧
               strict_eq (username holder) (msg_name (username_object 1 "bob")) = true) ∧
    (granted = msg_name (username_object 1 "bob") ∨
     ∃ k, appendToMakeUnique one_user_state ≤ k < appendToMakeUnique s' ∧
          (∀ t, msg_name (username_object 1 "bob") = JString t →
                granted = JString (t +:+ pretty k)) ∧
          (msg_name (username_object 1 "bob") = JUndefined → granted = JNaN)) ∧
    ∃ notice, sent s' = sent one_user_state ++ notice ++ roster s'.
Proof.
  apply (renamed_iff_held 2 _ (username_object 1 "bob") 0
           (Connection 1 (JString "bob") true "::1") one_user_state).
  - reflexivity.
  - reflexivity.
  - reflexivity.
  - vm_compute. lia.
  - by vm_compute.
Defined.

(** ** The user list *)

Lemma roster_elem_of s c :
  c ∈ connectionArray s →
  (clientID c, UserListFrame (username <$> connectionArray s)) ∈ roster s.
Proof.
  intros Hc. unfold roster, deliveries.
  by apply (list_elem_of_fmap_2 (λ c, (clientID c, _))).
Qed.

(** C5, as worded, fails: when a second user connects, the only frame the
    server writes is the [id] message for the newcomer; nobody gets a user
    list. *)
Lemma connect_roster_counterexample :
  (∃ s', step 1 (Request "http://localhost:3000" "::2") one_user_state = (Normal tt, s') ∧
         drop (length (sent one_user_state)) (sent s') = [(2, IdFrame 2)]) ∧
  ¬ roster_sent 1 (Request "http://localhost:3000" "::2") one_user_state.
Proof.
  split.
  - eexists. split; by vm_compute.
  - intros (s' & Hstep & Hall). vm_compute in Hstep. injection Hstep as <-.
    specialize (Hall (Connection 2 JUndefined true "::2")).
    simpl in Hall. rewrite !elem_of_cons in Hall.
    destruct Hall as [[=]|[]%elem_of_nil]. auto.
Qed.

(** C5, amended. After every close event, and after every username message
    whose [id] is that of a connection and whose [name] is a string, an
    array, an object or absent, handled while the suffix counter has room
    below 2^53 (but not after a connection is accepted, which only gets the
    newcomer its [id] message), the last thing written is the user list,
    once to each connection in the registry as it is then, in registry
    order, listing the usernames of exactly those
    connections in that same order, which is the order in which they
    connected.  The list is built from the registry at that moment. *)
Theorem roster_after_change (fuel : nat) (e : event) (s : server) :
  roster_event s e →
  (length (connectionArray s) < fuel)%nat →
  ∃ s' notice,
    step fuel e s = (Normal tt, s') ∧
    sent s' = sent s ++ notice ++ roster s' ∧
    Forall (λ p, ∀ users, p.2 ≠ UserListFrame users) notice ∧
    ∀ c, c ∈ connectionArray s' →
         (clientID c, UserListFrame (username <$> connectionArray s'))
           ∈ drop (length (sent s)) (sent s').
Proof.
  intros He Hfuel.
  assert (∀ s' notice, sent s' = sent s ++ notice ++ roster s' →
            ∀ c, c ∈ connectionArray s' →
                 (clientID c, UserListFrame (username <$> connectionArray s'))
                   ∈ drop (length (sent s)) (sent s')) as Hall.
  { intros s' notice -> c Hc. rewrite drop_app_length.
    apply elem_of_app. right. by apply roster_elem_of. }
  destruct He as [id address reason description|utf8Data o i c Hty Hfind Hname Hroom].
  - eexists _, []. simpl. unfold mbind, M_bind.
    rewrite transport_down_run, on_close_run.
    split_and!; [done|done|done|]. by apply (Hall _ []).
  - destruct (on_message_username fuel utf8Data o i c s Hty Hfind Hname Hfuel Hroom)
      as (j & _ & _ & _ & Hrun).
    eexists _, _. simpl. split_and!; [exact Hrun|done| |by eapply Hall].
    destruct j; [done|]. by apply Forall_singleton.
Qed.

Lemma roster_after_change_witness :
  ∃ s' notice,
    step 3 (Close 2 "::1" 1000 None) two_users_state = (Normal tt, s') ∧
    sent s' = sent two_users_state ++ notice ++ roster s' ∧
    Forall (λ p, ∀ users, p.2 ≠ UserListFrame users) notice ∧
    ∀ c, c ∈ connectionArray s' →
         (clientID c, UserListFrame (username <$> connectionArray s'))
           ∈ drop (length (sent two_users_state)) (sent s').
Proof.
  apply (roster_after_change 3 (Close 2 "::1" 1000 None) two_users_state).
  - apply roster_close.
  - vm_compute. lia.
Defined.

(** C6, as worded, fails: the handler does not know which connection a
    message came in on; it writes the notice to the connection that the
    [id] in the message names.  With alice (1) and alice1 (2) connected, a
    request that connection 2 sends with [id] 1 for the name alice1 renames
    connection 1 to alice12 and sends the notice to connection 1. *)
Lemma notice_to_other_counterexample :
  (∃ s', listener 2 3 (wire (username_request 1 "alice1")) two_users_state
           = (Normal tt, s') ∧
         username <$> connectionArray s' = [JString "alice12"; JString "alice1"] ∧
         drop (length (sent two_users_state)) (sent s')
           = (1, RejectUsernameFrame (Some 1) (JString "alice12")) :: roster s') ∧
  ¬ notice_to_sender_alone 2 3 (wire (username_request 1 "alice1")) two_users_state.
Proof.
  split.
  - eexists. split; [by vm_compute|]. split; by vm_compute.
  - intros Hclaim.
    destruct (listener 2 3 (wire (username_request 1 "alice1")) two_users_state)
      as [r s'] eqn:Hrun.
    vm_compute in Hrun. injection Hrun as <- <-.
    assert (1 = 2) as Habs; [|done].
    eapply (Hclaim _ 1 (Some 1) (JString "alice12")).
    + by vm_compute.
    + apply (bool_decide_unpack _). by vm_compute.
Qed.

(** C6, amended. For every username request whose [id] is that of a
    connection and whose [name] is a string, an array, an object or absent,
    handled while the suffix counter has room below 2^53, and whatever
    connection it came in on: a [rejectusername] message carrying the
    granted name is written if and only if the granted name differs from
    the requested one.  When they are equal the handler writes the user list
    and nothing else; when they differ it first writes one [rejectusername]
    message, to the connection that the [id] of the request names, which is
    the sender only if the client wrote its own [id].  That connection is
    the one that gets the granted name, and while [nextID] is below 2^53
    its [clientID] is that of no other connection. *)
Theorem reject_iff_renamed (sender : Z) (fuel : nat) (utf8Data : string)
    (o : message_object) (i : nat) (c : connection) (s : server) :
  msg_type o = Some "username" →
  list_find (λ c, Some (clientID c) = msg_id o) (connectionArray s) = Some (i, c) →
  numeric (msg_name o) = false →
  (length (connectionArray s) < fuel)%nat →
  appendToMakeUnique s + Z.of_nat (length (connectionArray s)) ≤ 2 ^ 53 →
  ∃ granted s',
    listener sender fuel (Utf8Message utf8Data (Some (JsonObject o))) s
      = (Normal tt, s') ∧
    connectionArray s' !! i = Some (set_username granted c) ∧
    sent s' =
      sent s
      ++ (if decide (granted = msg_name o) then []
          else [(clientID c, RejectUsernameFrame (msg_id o) granted)])
      ++ roster s' ∧
    msg_id o = Some (clientID c) ∧
    (reachable s → nextID s < 2 ^ 53 →
     ∀ c', c' ∈ connectionArray s → clientID c' = clientID c → c' = c).
Proof.
  intros Hty Hfind Hname Hfuel Hroom. unfold listener.
  destruct (on_message_username fuel utf8Data o i c s Hty Hfind Hname Hfuel Hroom)
    as (j & _ & Hu & Hiff & Hrun).
  pose proof (candidate_changed _ _ _ Hname Hu Hiff) as Hchanged.
  apply list_find_Some in Hfind as (Hi & Hid & _).
  eexists _, _. split; [exact Hrun|]. simpl. split_and!.
  - by rewrite list_lookup_alter_eq, Hi.
  - destruct j as [|j]; case_decide as Heq; try done.
    exfalso. by apply (proj2 Hchanged).
  - done.
  - intros Hs Hids c' Hc'. apply (reachable_id_names_one s); [done|done| |done].
    by eapply list_elem_of_lookup_2.
Qed.

Lemma reject_iff_renamed_witness :
  ∃ granted s',
    listener 1 2 (Utf8Message (json_text (username_request 1 "bob"))
                    (Some (JsonObject (username_object 1 "bob")))) one_user_state
      = (Normal tt, s') ∧
    connectionArray s' !! 0%nat
      = Some (set_username granted (Connection 1 (JString "bob") true "::1")) ∧
    sent s' =
      sent one_user_state
      ++ (if decide (granted = msg_name (username_object 1 "bob")) then []
          else [(clientID (Connection 1 (JString "bob") true "::1"),
                 RejectUsernameFrame (msg_id (username_object 1 "bob")) granted)])
      ++ roster s' ∧
    msg_id (username_object 1 "bob")
      = Some (clientID (Connection 1 (JString "bob") true "::1")) ∧
    (reachable one_user_state → nextID one_user_state < 2 ^ 53 →
     ∀ c', c' ∈ connectionArray one_user_state →
           clientID c' = clientID (Connection 1 (JString "bob") true "::1") →
           c' = Connection 1 (JString "bob") true "::1").
Proof.
  apply (reject_iff_renamed 1 2 _ (username_object 1 "bob") 0
           (Connection 1 (JString "bob") true "::1") one_user_state).
  - reflexivity.
  - reflexivity.
  - reflexivity.
  - vm_compute. lia.
  - by vm_compute.
Defined.

(** ** Routing *)





(** The scenario of the specification: Alice's message for alice1 reaches
    Bob alone, and her message without a target reaches both. *)
Example relay_scenario :
  let msg := chat 1 "hi <b>bob</b>" (Some "alice1") in
  let all := chat 1 "hi all" None in
  drop (length (sent two_users_state))
       (sent (on_message 3 (wire msg) two_users_state).2)
    = [(2, RelayFrame (JsonObject (MessageObject (Some 1) (Some "message")
                         (JString "alice") (Some "hi bob") (Some "alice1") "")))] ∧
  fst <$> drop (length (sent two_users_state))
            (sent (on_message 3 (wire all) two_users_state).2)
    = [1; 2].
Proof. split; by vm_compute. Qed.

(** ** Closing *)

Lemma filter_mark_down id (rest : list connection) :
  filter (λ el, connected el) (mark_down id <$> rest) =
  filter (λ c, connected c ∧ clientID c ≠ id) rest.
Proof.
  induction rest as [|c rest IH]; [done|]. csimpl.
  rewrite !filter_cons, IH. unfold mark_down.
  destruct (bool_decide_reflect (clientID c = id)); repeat case_decide;
    simpl in *; try done; tauto.
Qed.

Lemma filter_agree {A} (P Q : A → Prop)
    `{!∀ x, Decision (P x), !∀ x, Decision (Q x)} (l : list A) :
  (∀ x, x ∈ l → P x ↔ Q x) → filter P l = filter Q l.
Proof.
  induction l as [|x l IH]; intros Hagree; [done|].
  rewrite !filter_cons, IH by (intros y Hy; apply Hagree; by right).
  pose proof (Hagree x (list_elem_of_here x l)).
  repeat case_decide; try done; tauto.
Qed.

Lemma filter_all {A} (P : A → Prop) `{!∀ x, Decision (P x)} (l : list A) :
  Forall P l → filter P l = l.
Proof.
  induction 1 as [|x l Hx _ IH]; [done|].
  by rewrite filter_cons, decide_True, IH.
Qed.

(** C10, as worded, fails: Bob is no longer in the registry when his close
    event arrives, and the event changes the registry all the same, because
    Carol's connection has gone down since. *)
Lemma close_of_absent_counterexample :
  clientID <$> connectionArray carol_down_state = [1; 4] ∧
  (∃ s', step 1 (Close 2 "::2" 1006 None) carol_down_state = (Normal tt, s') ∧
         clientID <$> connectionArray s' = [1]) ∧
  ¬ close_of_absent_is_noop 2 carol_down_state.
Proof.
  split_and!.
  - by vm_compute.
  - eexists. split; by vm_compute.
  - intros Hclaim.
    assert (clientID <$> connectionArray carol_down_state = [1; 4]) as Hids
      by (by vm_compute).
    assert (2 ∉ clientID <$> connectionArray carol_down_state) as Habsent.
    { rewrite Hids. intros [[=]|[[=]|[]%elem_of_nil]%elem_of_cons]%elem_of_cons. }
    pose proof (Hclaim Habsent 1%nat "::2" 1006 None
                  (step 1 (Close 2 "::2" 1006 None) carol_down_state).2) as Hsame.
    assert (connectionArray (step 1 (Close 2 "::2" 1006 None) carol_down_state).2
            ≠ connectionArray carol_down_state) as Hne
      by (by vm_compute).
    apply Hne, Hsame. by vm_compute.
Qed.

(** C10, amended. When a close event is processed, the registry afterwards
    holds exactly the connections that are still connected, in their old
    order: the connection the event is for and every other connection that
    has gone down are removed in that one step.  A close for a connection
    that is no longer in the registry changes the registry only by removing
    the connections that have gone down in the meantime; if all registered
    connections are still connected it leaves the registry as it was. *)
Theorem close_purges_dead (fuel : nat) (id : Z) (address : string) (reason : Z)
    (description : option string) (s : server) :
  ∃ s',
    step fuel (Close id address reason description) s = (Normal tt, s') ∧
    connectionArray s' =
      filter (λ c, connected c ∧ clientID c ≠ id) (connectionArray s) ∧
    (∀ c, c ∈ connectionArray s' ↔
          c ∈ connectionArray s ∧ connected c = true ∧ clientID c ≠ id) ∧
    (id ∉ clientID <$> connectionArray s →
     connectionArray s' = filter (λ c, connected c) (connectionArray s)) ∧
    (id ∉ clientID <$> connectionArray s →
     Forall (λ c, connected c = true) (connectionArray s) →
     connectionArray s' = connectionArray s).
Proof.
  eexists. simpl. unfold mbind, M_bind.
  rewrite transport_down_run, on_close_run. split; [done|]. simpl.
  rewrite filter_mark_down.
  assert (id ∉ clientID <$> connectionArray s →
          filter (λ c, connected c ∧ clientID c ≠ id) (connectionArray s)
          = filter (λ c, connected c) (connectionArray s)) as Habsent.
  { intros Hid. apply filter_agree. intros c Hc. split; [by intros []|].
    intros Hconn. split; [done|]. intros Heq. apply Hid. rewrite <- Heq.
    by apply list_elem_of_fmap_2. }
  split_and!; [done| |done|].
  - intros c. rewrite list_elem_of_filter, Is_true_true. tauto.
  - intros Hid Hall. rewrite Habsent by done. apply filter_all.
    eapply Forall_impl; [done|]. intros c Hc. by apply Is_true_true.
Qed.

Lemma close_purges_dead_witness :
  ∃ s',
    step 1 (Close 2 "::2" 1006 None) carol_down_state = (Normal tt, s') ∧
    connectionArray s' =
      filter (λ c, connected c ∧ clientID c ≠ 2) (connectionArray carol_down_state) ∧
    (∀ c, c ∈ connectionArray s' ↔
          c ∈ connectionArray carol_down_state ∧ connected c = true ∧ clientID c ≠ 2) ∧
    (2 ∉ clientID <$> connectionArray carol_down_state →
     connectionArray s' = filter (λ c, connected c) (connectionArray carol_down_state)) ∧
    (2 ∉ clientID <$> connectionArray carol_down_state →
     Forall (λ c, connected c = true) (connectionArray carol_down_state) →
     connectionArray s' = connectionArray carol_down_state).
Proof. exact (close_purges_dead 1 2 "::2" 1006 None carol_down_state). Defined.

(** * Further properties *)

(** ** What the sanitisation removes and what it keeps *)
Section sanitize_more.
Import Sanitize.

Lemma append_nil_l (s : string) : "" +:+ s = s.
Proof. reflexivity. Qed.

Lemma append_cons c (a s : string) : String c a +:+ s = String c (a +:+ s).
Proof. reflexivity. Qed.

Lemma append_nil_r (s : string) : s +:+ "" = s.
Proof. induction s as [|c s IH]; [done|]. by rewrite append_cons, IH. Qed.

Lemma after_gt_suffix s r :
  after_gt s = Some r → ∃ pre, s = pre +:+ String gt_char r.
Proof.
  revert r. induction s as [|c s IH]; intros r; simpl; [done|].
  destruct (Ascii.eqb_spec c gt_char) as [->|_].
  - intros [= ->]. by exists "".
  - intros [pre ->]%IH. by exists (String c pre).
Qed.

Lemma after_gt_None_iff s :
  after_gt s = None ↔ gt_char ∉ list_ascii_of_string s.
Proof.
  induction s as [|c s IH]; simpl.
  - split; [intros _; apply not_elem_of_nil|done].
  - destruct (Ascii.eqb_spec c gt_char) as [->|Hc].
    + split; [done|]. intros []. left.
    + rewrite IH, not_elem_of_cons. split; [by intros ?; split|by intros [_ ?]].
Qed.

Lemma after_gt_app t b :
  gt_char ∉ list_ascii_of_string t →
  after_gt (t +:+ String gt_char b) = Some b.
Proof.
  induction t as [|c t IH]; rewrite ?append_nil_l, ?append_cons; simpl.
  - done.
  - intros [Hc Ht]%not_elem_of_cons.
    destruct (Ascii.eqb_spec c gt_char) as [->|_]; [done|]. by apply IH.
Qed.

(** Text before the first [<] is kept as it is. *)
Lemma strip_app_no_lt a x :
  lt_char ∉ list_ascii_of_string a → strip (a +:+ x) = a +:+ strip x.
Proof.
  induction a as [|c a IH]; [done|]. rewrite !append_cons.
  intros [Hc Ha]%not_elem_of_cons. rewrite strip_cons.
  assert (match_tag (String c (a +:+ x)) = None) as ->.
  { unfold match_tag. destruct (a +:+ x); [done|].
    destruct (Ascii.eqb_spec c lt_char); [by subst|done]. }
  by rewrite IH.
Qed.

(** X1. The sanitised text holds no [<...>] span: wherever one cuts it, what
    follows the cut does not start with a match of the pattern. *)
Theorem strip_no_tag_left (s pre suf : string) :
  strip s = pre +:+ suf → match_tag suf = None.
Proof.
  revert pre suf.
  induction (Nat.lt_wf_0_projected String.length s) as [s _ IH]; intros pre suf.
  destruct s as [|c r].
  { simp strip. destruct pre; [|done]. rewrite append_nil_l. by intros <-. }
  rewrite strip_cons.
  destruct (match_tag (String c r)) as [rest|] eqn:Hm.
  - apply IH. by apply match_tag_length.
  - destruct pre as [|d pre].
    + rewrite append_nil_l. intros <-. by apply match_tag_None_strip.
    + rewrite append_cons. intros [= _ Hsuf]. eapply IH; [|done]. simpl; lia.
Qed.

Lemma strip_no_tag_left_witness : match_tag "bob</b" = None.
Proof. apply (strip_no_tag_left "hi <i>bob</b" "hi "). reflexivity. Defined.

(** X2. Sanitising only deletes: the code units of the result are code
    units of the text, in their order. *)
Theorem strip_sublist (s : string) :
  list_ascii_of_string (strip s) `sublist_of` list_ascii_of_string s.
Proof.
  induction (Nat.lt_wf_0_projected String.length s) as [s _ IH].
  destruct s as [|c r]; [by simp strip|].
  rewrite strip_cons.
  destruct (match_tag (String c r)) as [rest|] eqn:Hm.
  - etrans; [apply IH; by apply match_tag_length|].
    unfold match_tag in Hm. destruct r as [|d r]; [done|].
    destruct (Ascii.eqb c lt_char); [|done].
    destruct (Ascii.eqb d gt_char); [done|].
    apply after_gt_suffix in Hm as [pre ->]. simpl.
    do 2 apply sublist_cons. clear IH.
    induction pre as [|e pre IHpre]; rewrite ?append_nil_l, ?append_cons;
      simpl; by apply sublist_cons.
  - simpl. apply sublist_skip, IH. simpl; lia.
Qed.

(** X3. A text without [>], or without [<], comes back unchanged; so an
    opening bracket that is never closed stays in the message. *)
Theorem strip_unclosed (s : string) :
  gt_char ∉ list_ascii_of_string s ∨ lt_char ∉ list_ascii_of_string s →
  strip s = s.
Proof.
  intros [Hgt|Hlt].
  - by apply after_gt_None_strip, after_gt_None_iff.
  - pose proof (strip_app_no_lt s "" Hlt) as Happ.
    rewrite append_nil_r in Happ. rewrite Happ. simp strip. apply append_nil_r.
Qed.

Lemma strip_unclosed_witness : strip "<img src=x onerror=alert(1)" = "<img src=x onerror=alert(1)".
Proof.
  apply strip_unclosed. left. apply (bool_decide_unpack _). by vm_compute.
Defined.

(** X4. A span [<t>] with [t] not empty and free of [>] is removed whole,
    whatever else [t] holds, and the text before the first [<] is kept; the
    empty pair [<>] is no span and is kept. *)
Theorem strip_span (a b : string) :
  lt_char ∉ list_ascii_of_string a →
  (∀ t, t ≠ "" → gt_char ∉ list_ascii_of_string t →
        strip (a +:+ String lt_char (t +:+ String gt_char b)) = a +:+ strip b) ∧
  strip (a +:+ String lt_char (String gt_char b))
    = a +:+ String lt_char (String gt_char (strip b)).
Proof.
  intros Ha. split.
  - intros t Ht Hgt. rewrite strip_app_no_lt, strip_cons by done.
    destruct t as [|d t]; [done|]. rewrite append_cons.
    apply not_elem_of_cons in Hgt as [Hd Hgt].
    unfold match_tag. rewrite Ascii.eqb_refl.
    destruct (Ascii.eqb_spec d gt_char) as [->|_]; [done|].
    by rewrite after_gt_app.
  - rewrite strip_app_no_lt, strip_cons by done.
    unfold match_tag at 1. rewrite !Ascii.eqb_refl.
    rewrite strip_cons.
    by assert (match_tag (String gt_char b) = None) as -> by (by destruct b).
Qed.

Lemma strip_span_witness :
  (∀ t, t ≠ "" → gt_char ∉ list_ascii_of_string t →
        strip ("hi " +:+ String lt_char (t +:+ String gt_char "bob")) = "hi " +:+ strip "bob") ∧
  strip ("hi " +:+ String lt_char (String gt_char "bob"))
    = "hi " +:+ String lt_char (String gt_char (strip "bob")).
Proof.
  apply (strip_span "hi " "bob"). apply (bool_decide_unpack _). by vm_compute.
Defined.
End sanitize_more.

(** ** Session identifiers *)

(** What an event does to the identifiers in the registry and to [nextID],
    however the handler ends. *)
Lemma step_ids fuel e s r s' :
  step fuel e s = (r, s') →
  match e with
  | Request _ _ =>
      clientID <$> connectionArray s' = (clientID <$> connectionArray s) ++ [nextID s] ∧
      nextID s' = js_incr (nextID s)
  | Message _ | Lost _ =>
      clientID <$> connectionArray s' = clientID <$> connectionArray s ∧
      nextID s' = nextID s
  | Close _ _ _ _ =>
      (clientID <$> connectionArray s') `sublist_of` (clientID <$> connectionArray s) ∧
      nextID s' = nextID s
  end.
Proof.
  destruct e as [origin address|message|id|id address reason description]; simpl.
  - rewrite on_request_run. intros [= <- <-]. simpl. by rewrite fmap_app.
  - intros (Hid & _ & [Hca|(i & g & _ & Hca)])%on_message_registry;
      rewrite Hca, ?ids_alter; done.
  - rewrite transport_down_run. intros [= <- <-]. simpl. by rewrite mark_down_ids.
  - unfold mbind, M_bind. rewrite transport_down_run, on_close_run.
    intros [= <- <-]. simpl. split; [|done].
    rewrite <- (mark_down_ids id (connectionArray s)).
    apply fmap_sublist, sublist_filter.
Qed.

Lemma step_nextID fuel e s r s' :
  step fuel e s = (r, s') → nextID s ≤ nextID s'.
Proof.
  intros Hstep%step_ids.
  destruct e; destruct Hstep as [_ ->]; try lia. apply js_incr_le.
Qed.

(** X5. Identifiers are handed out in increasing order and never reused, as
    long as [nextID], a double, has not reached 2^53, where [nextID++] stops
    moving: in every reachable state with [nextID] below 2^53 the
    [clientID]s of the registry increase strictly from the oldest connection
    to the newest, and all lie below [nextID]. *)
Theorem ids_increasing (s : server) :
  reachable s →
  nextID s < 2 ^ 53 →
  StronglySorted Z.lt (clientID <$> connectionArray s) ∧
  Forall (λ id, id < nextID s) (clientID <$> connectionArray s).
Proof.
  intros Hs Hroom. split; [|by apply (reachable_invariant s Hs)].
  induction Hs as [now Hnow|s e fuel s' Hs IH Hstep]; [constructor|].
  pose proof (step_nextID _ _ _ _ _ Hstep) as Hle.
  assert (nextID s < 2 ^ 53) as Hroom0 by lia. specialize (IH Hroom0).
  destruct (reachable_invariant s Hs) as [_ _ Hfresh]. specialize (Hfresh Hroom0).
  apply step_ids in Hstep.
  destruct e; destruct Hstep as [Hids _]; try by rewrite Hids.
  - rewrite Hids. apply StronglySorted_app_2; [|done|repeat constructor].
    intros x y Hx ->%list_elem_of_singleton.
    rewrite Forall_forall in Hfresh. by apply Hfresh.
  - by eapply StronglySorted_sublist.
Qed.

Lemma ids_increasing_witness :
  StronglySorted Z.lt (clientID <$> connectionArray two_users_state) ∧
  Forall (λ id, id < nextID two_users_state) (clientID <$> connectionArray two_users_state).
Proof.
  apply (ids_increasing two_users_state); [apply two_users_reachable|by vm_compute].
Defined.

(** X6. Connecting and then looking the new identifier up: a connection
    request is always accepted; it adds one connection, without a name, at
    the end of the registry and leaves the others as they were; the one frame
    it writes is the [id] message for the newcomer; and, as long as
    [nextID] has not reached 2^53, [getConnectionForID] on the identifier
    it announced finds that new connection. *)
Theorem connect_then_lookup (origin address : string) (s : server) :
  reachable s →
  nextID s < 2 ^ 53 →
  let connection := Connection (nextID s) JUndefined true address in
  ∃ s',
    on_request origin address s = (Normal tt, s') ∧
    connectionArray s' = connectionArray s ++ [connection] ∧
    written_since s s' = [(nextID s, IdFrame (nextID s))] ∧
    getConnectionForID (Some (nextID s)) s'
      = (Normal (Some (length (connectionArray s), connection)), s').
Proof.
  intros Hs Hroom connection.
  destruct (reachable_invariant s Hs) as [_ _ Hfresh]. specialize (Hfresh Hroom).
  eexists. rewrite on_request_run. split_and!; [done|done| |].
  - unfold written_since. simpl. by rewrite drop_app_length.
  - unfold getConnectionForID. unfold_monad. do 2 f_equal.
    apply list_find_Some. split_and!.
    + by rewrite lookup_app_r, Nat.sub_diag.
    + done.
    + intros j y Hj Hlt [= Hy]. rewrite lookup_app_l in Hj by done.
      rewrite Forall_forall in Hfresh.
      assert (clientID y < nextID s); [|lia].
      apply Hfresh, list_elem_of_fmap_2. by eapply list_elem_of_lookup_2.
Qed.

Lemma connect_then_lookup_witness :
  let connection := Connection (nextID one_user_state) JUndefined true "::2" in
  ∃ s',
    on_request "http://localhost:3000" "::2" one_user_state = (Normal tt, s') ∧
    connectionArray s' = connectionArray one_user_state ++ [connection] ∧
    written_since one_user_state s' = [(nextID one_user_state, IdFrame (nextID one_user_state))] ∧
    getConnectionForID (Some (nextID one_user_state)) s'
      = (Normal (Some (length (connectionArray one_user_state), connection)), s').
Proof.
  apply (connect_then_lookup "http://localhost:3000" "::2" one_user_state);
    [apply one_user_reachable|by vm_compute].
Defined.

(** X7. [getConnectionForID] in a reachable state in which [nextID] has
    not reached 2^53: it finds the connection at place [i] exactly when that
    connection has the wanted identifier, and it gives [null] exactly when
    no connection has it, which is always so for a message without [id]; it
    changes nothing. *)
Theorem getConnectionForID_spec (s : server) (id : option Z) :
  reachable s →
  nextID s < 2 ^ 53 →
  (∀ i c, getConnectionForID id s = (Normal (Some (i, c)), s) ↔
          connectionArray s !! i = Some c ∧ id = Some (clientID c)) ∧
  (getConnectionForID id s = (Normal None, s) ↔
   ∀ c, c ∈ connectionArray s → id ≠ Some (clientID c)) ∧
  getConnectionForID None s = (Normal None, s).
Proof.
  intros Hs Hroom. destruct (reachable_invariant s Hs) as [_ Hids _].
  specialize (Hids Hroom).
  unfold getConnectionForID. unfold_monad. split_and!.
  - intros i c. split.
    + intros [= (Hi & Hc & _)%list_find_Some]. done.
    + intros [Hi ->]. do 2 f_equal. apply list_find_Some. split_and!; [done..|].
      intros j y Hj Hlt [= Hy].
      assert (j = i); [|lia].
      apply (NoDup_lookup _ _ _ (clientID c) Hids);
        rewrite list_lookup_fmap; [rewrite Hj; simpl; by f_equal|by rewrite Hi].
  - split.
    + intros [= Hnone%list_find_None] c Hc Heq.
      rewrite Forall_forall in Hnone. by apply (Hnone c).
    + intros Hnone. do 2 f_equal. apply list_find_None, Forall_forall.
      intros c Hc Heq. by apply (Hnone c).
  - do 2 f_equal. apply list_find_None, Forall_forall. by intros c _.
Qed.

Lemma getConnectionForID_spec_witness :
  (∀ i c, getConnectionForID (Some 2) two_users_state = (Normal (Some (i, c)), two_users_state) ↔
          connectionArray two_users_state !! i = Some c ∧ Some 2 = Some (clientID c)) ∧
  (getConnectionForID (Some 2) two_users_state = (Normal None, two_users_state) ↔
   ∀ c, c ∈ connectionArray two_users_state → Some 2 ≠ Some (clientID c)) ∧
  getConnectionForID None two_users_state = (Normal None, two_users_state).
Proof.
  apply (getConnectionForID_spec two_users_state (Some 2));
    [apply two_users_reachable|by vm_compute].
Defined.

(** X8. [nextID] counts the connections as long as it stays within 2^53,
    where a double stops counting: after a run of events that no handler
    ended with an exception and that does not take [nextID] beyond 2^53,
    [nextID] is its starting value plus the number of connection requests
    in the run. *)
Theorem nextID_counts_connects (fuel : nat) (events : list event) (s s' : server) :
  run fuel events s = (Normal tt, s') →
  nextID s + Z.of_nat (connects events) ≤ 2 ^ 53 →
  nextID s' = nextID s + Z.of_nat (connects events).
Proof.
  revert s. induction events as [|e events IH]; intros s; simpl.
  - intros [= <-]. unfold connects. simpl. lia.
  - unfold mbind, M_bind.
    destruct (step fuel e s) as [[[]| |] s1] eqn:Hstep; [|done|done].
    intros Hrun Hroom. apply step_ids in Hstep. revert Hroom. unfold connects.
    rewrite filter_cons. fold (connects events).
    destruct e; destruct Hstep as [_ Hid]; simpl; intros Hroom.
    + rewrite js_incr_below in Hid by lia.
      rewrite (IH s1 Hrun); rewrite Hid; unfold connects in *; lia.
    + rewrite (IH s1 Hrun); rewrite Hid; unfold connects in *; lia.
    + rewrite (IH s1 Hrun); rewrite Hid; unfold connects in *; lia.
    + rewrite (IH s1 Hrun); rewrite Hid; unfold connects in *; lia.
Qed.

Lemma nextID_counts_connects_witness :
  nextID two_users_state = nextID (initial 1) + Z.of_nat (connects two_users).
Proof.
  apply (nextID_counts_connects 3 two_users (initial 1)); by vm_compute.
Defined.

(** ** What a message can and cannot do *)

Lemma deliveries_recipients (rest : list connection) f :
  Forall (λ p, p.1 ∈ clientID <$> rest) (deliveries rest f).
Proof.
  apply Forall_forall. intros p (c & -> & Hc)%list_elem_of_fmap. simpl.
  by apply list_elem_of_fmap_2.
Qed.

Lemma found_recipient (P : connection → Prop) `{!∀ c, Decision (P c)}
    (rest : list connection) k c :
  list_find P rest = Some (k, c) → clientID c ∈ clientID <$> rest.
Proof.
  intros (Hk & _)%list_find_Some.
  apply list_elem_of_fmap_2. by eapply list_elem_of_lookup_2.
Qed.

Lemma send_to_clients_effects msg s r s' :
  send_to_clients msg s = (r, s') →
  ∃ new, s' = sending s new ∧
         Forall (λ p, p.1 ∈ clientID <$> connectionArray s) new.
Proof.
  rewrite send_to_clients_run.
  destruct (directed_to msg) as [target|].
  - destruct (list_find _ _) as [[k c]|] eqn:Hfind; intros [= <- <-].
    + eexists. split; [done|]. apply Forall_singleton. simpl.
      by eapply found_recipient.
    + exists []. split; [|done]. unfold sending. rewrite app_nil_r. by destruct s.
  - intros [= <- <-]. eexists. split; [done|]. apply deliveries_recipients.
Qed.

Lemma username_loop_free fuel origName name changed s r s' :
  isUsernameUnique_loop (connectionArray s) name = true →
  username_loop fuel origName name changed s = (r, s') → s' = s.
Proof.
  intros Hu. destruct fuel as [|fuel]; simpl; [by intros [= <- <-]|].
  unfold_monad. rewrite Hu. by intros [= <- <-].
Qed.

(** The frames a message makes the server write all go to connections of
    the registry, and the suffix counter moves only for a username message
    that asks for a name somebody holds. *)
Lemma on_message_effects fuel message s r s' :
  on_message fuel message s = (r, s') →
  (∃ new, sent s' = sent s ++ new ∧
          Forall (λ p, p.1 ∈ clientID <$> connectionArray s) new) ∧
  (appendToMakeUnique s' ≠ appendToMakeUnique s →
   ∃ utf8Data o,
     message = Utf8Message utf8Data (Some (JsonObject o)) ∧
     msg_type o = Some "username" ∧
     isUsernameUnique_loop (connectionArray s) (msg_name o) = false).
Proof.
  assert (∀ msg text,
            send_to_clients msg (logging s text) = (r, s') →
            (∃ new, sent s' = sent s ++ new ∧
                    Forall (λ p, p.1 ∈ clientID <$> connectionArray s) new) ∧
            (appendToMakeUnique s' ≠ appendToMakeUnique s → False)) as Hrelay.
  { intros msg text (new & -> & Hnew)%send_to_clients_effects. split; [|done].
    by exists new. }
  assert (∀ T : Prop, (∃ new : list (Z * frame), sent s = sent s ++ new ∧
            Forall (λ p, p.1 ∈ clientID <$> connectionArray s) new) ∧
            (appendToMakeUnique s ≠ appendToMakeUnique s → T)) as Hnothing.
  { intros T. split; [|done]. exists []. by rewrite app_nil_r. }
  destruct message as [|utf8Data [msg|]]; simpl.
  { intros [= <- <-]. apply Hnothing. }
  2:{ intros [= <- <-]. apply Hnothing. }
  unfold_monad. destruct msg as [|src|o]; simpl.
  { intros [= <- <-]. apply Hnothing. }
  { intros Hrun. destruct (Hrelay _ _ Hrun) as [? ?]. split; [done|]. tauto. }
  destruct (bool_decide_reflect (msg_type o = Some "message")) as [Hm|Hm].
  { destruct (list_find _ _) as [[i c]|]; simpl;
      [destruct (msg_text o); simpl|].
    - intros Hrun. destruct (Hrelay _ _ Hrun) as [? ?]. split; [done|]. tauto.
    - intros [= <- <-]. apply Hnothing.
    - intros [= <- <-]. apply Hnothing. }
  destruct (bool_decide_reflect (msg_type o = Some "username")) as [Hu|Hu].
  2:{ intros Hrun. destruct (Hrelay _ _ Hrun) as [? ?]. split; [done|]. tauto. }
  destruct (username_loop _ _ _ _ _) as [result s1] eqn:Hloop.
  assert (appendToMakeUnique s1 ≠ appendToMakeUnique s →
          isUsernameUnique_loop (connectionArray s) (msg_name o) = false) as Htaken.
  { intros Hne.
    destruct (isUsernameUnique_loop (connectionArray s) (msg_name o)) eqn:Hfree;
      [|done].
    apply username_loop_free in Hloop; [|done]. by subst s1. }
  destruct (username_loop_frame _ _ _ _ _ _ _ Hloop) as [j ->].
  simpl in Htaken.
  assert (∀ new, Forall (λ p, p.1 ∈ clientID <$> connectionArray s) new →
            ∀ s2, sent s2 = sent s ++ new →
                  appendToMakeUnique s2 = appendToMakeUnique s + Z.of_nat j →
            (∃ new, sent s2 = sent s ++ new ∧
                    Forall (λ p, p.1 ∈ clientID <$> connectionArray s) new) ∧
            (appendToMakeUnique s2 ≠ appendToMakeUnique s →
             ∃ utf8Data0 o0,
               Utf8Message utf8Data (Some (JsonObject o))
                 = Utf8Message utf8Data0 (Some (JsonObject o0)) ∧
               msg_type o0 = Some "username" ∧
               isUsernameUnique_loop (connectionArray s) (msg_name o0) = false))
    as Hdone.
  { intros new Hnew s2 Hsent Hcount. split; [by exists new|].
    rewrite Hcount. intros Hne. exists utf8Data, o. split_and!; [done|done|].
    by apply Htaken. }
  destruct result as [[granted changed]| |]; simpl.
  2,3: intros [= <- <-]; apply (Hdone []); [done|simpl; by rewrite app_nil_r|done].
  destruct (list_find _ _) as [[i c]|] eqn:Hfind; simpl.
  - destruct changed; unfold_monad; rewrite sendUserListToAll_run; simpl;
      intros [= <- <-].
    + eapply Hdone; [|simpl; by rewrite <- app_assoc|done].
      apply Forall_app. split.
      * apply Forall_singleton. simpl. by eapply found_recipient.
      * rewrite <- (ids_alter (connectionArray s) i granted).
        apply deliveries_recipients.
    + eapply Hdone; [|done|done].
      rewrite <- (ids_alter (connectionArray s) i granted).
      apply deliveries_recipients.
  - destruct changed; intros [= <- <-];
      (apply (Hdone []); [done|simpl; by rewrite app_nil_r|done]).
Qed.

Lemma membership_alter (rest : list connection) (i : nat) g :
  membership <$> alter (set_username g) i rest = membership <$> rest.
Proof.
  revert i. induction rest as [|c rest IH]; intros [|i]; csimpl; try done.
  by rewrite IH.
Qed.

(** X9. No message adds, removes or reorders connections or changes an
    identifier, a [connected] flag or [nextID], however the handler ends
    (exceptions included): after it the registry holds the same connections
    in the same places, and at most one of them has another username. *)
Theorem message_keeps_membership (fuel : nat) (message : ws_message) (s : server) :
  let s' := (on_message fuel message s).2 in
  nextID s' = nextID s ∧
  membership <$> connectionArray s' = membership <$> connectionArray s ∧
  ∃ i, ∀ j, j ≠ i → connectionArray s' !! j = connectionArray s !! j.
Proof.
  destruct (on_message fuel message s) as [r s'] eqn:Hrun. simpl.
  apply on_message_registry in Hrun as (Hid & _ & [Hca|(i & g & _ & Hca)]).
  - rewrite Hca. split_and!; [done|done|]. by exists 0%nat.
  - rewrite Hca, membership_alter. split_and!; [done|done|].
    exists i. intros j Hj. by rewrite list_lookup_alter_ne.
Qed.

(** X10. The server writes only to connections of the registry: whatever
    the event and however its handler ends, the frames it adds to those
    already written are all addressed to connections that are in the
    registry when the handler ends, and nothing written before is lost. *)
Theorem step_sends_to_registered (fuel : nat) (e : event) (s : server) :
  let s' := (step fuel e s).2 in
  ∃ new, sent s' = sent s ++ new ∧
         Forall (λ p, p.1 ∈ clientID <$> connectionArray s') new.
Proof.
  destruct (step fuel e s) as [r s'] eqn:Hstep. simpl.
  pose proof (step_ids _ _ _ _ _ Hstep) as Hids.
  destruct e as [origin address|message|id|id address reason description];
    simpl in Hstep.
  - destruct Hids as [Hids _]. rewrite on_request_run in Hstep.
    injection Hstep as <- <-. eexists. split; [done|].
    apply Forall_singleton. simpl. rewrite fmap_app.
    apply elem_of_app. right. by left.
  - destruct Hids as [-> _]. by apply on_message_effects in Hstep as [? _].
  - rewrite transport_down_run in Hstep. injection Hstep as <- <-.
    exists []. simpl. by rewrite app_nil_r.
  - unfold mbind, M_bind in Hstep. rewrite transport_down_run, on_close_run in Hstep.
    injection Hstep as <- <-. eexists. split; [done|]. apply deliveries_recipients.
Qed.

(** An identifier that has left the registry, or was never in it, stays
    out and is written to no more. *)
Lemma run_leaves_out fuel events s id :
  id < nextID s → id ∉ clientID <$> connectionArray s →
  ∃ new, sent (run fuel events s).2 = sent s ++ new ∧
         Forall (λ p, p.1 ≠ id) new ∧
         id ∉ clientID <$> connectionArray (run fuel events s).2.
Proof.
  revert s. induction events as [|e events IH]; intros s Hlt Hout; simpl.
  { exists []. by rewrite app_nil_r. }
  unfold mbind, M_bind.
  destruct (step fuel e s) as [r s1] eqn:Hstep.
  pose proof (step_sends_to_registered fuel e s) as (new & Hsent & Hnew).
  rewrite Hstep in Hsent, Hnew. simpl in Hsent, Hnew.
  apply step_ids in Hstep.
  assert (id < nextID s1 ∧ id ∉ clientID <$> connectionArray s1) as [Hlt1 Hout1].
  { destruct e; destruct Hstep as [Hids ->].
    - rewrite Hids. pose proof (js_incr_le (nextID s)) as Hle.
      split; [lia|]. intros [?|Hin]%elem_of_app; [done|].
      apply list_elem_of_singleton in Hin. lia.
    - by rewrite Hids.
    - by rewrite Hids.
    - split; [done|]. intros Hin. apply Hout. by eapply elem_of_sublist. }
  assert (Forall (λ p, p.1 ≠ id) new) as Hnew1.
  { eapply Forall_impl; [done|]. intros p Hp Heq. simpl in Hp.
    by rewrite Heq in Hp. }
  destruct r as [[]| |]; simpl; [|by exists new..].
  destruct (IH s1 Hlt1 Hout1) as (new' & -> & Hnew' & Hout').
  exists (new ++ new'). rewrite Hsent, <- app_assoc. split_and!; [done| |done].
  by apply Forall_app.
Qed.

(** X11. A session that is gone gets nothing more: if an identifier below
    [nextID] is not in the registry (its connection was closed), then through
    any further events it never comes back into the registry, since new
    connections get higher identifiers, and no frame written from then on is
    addressed to it. *)
Theorem departed_gets_nothing (fuel : nat) (events : list event) (s : server) (id : Z) :
  id < nextID s →
  id ∉ clientID <$> connectionArray s →
  let s' := (run fuel events s).2 in
  (id ∉ clientID <$> connectionArray s') ∧
  Forall (λ p, p.1 ≠ id) (written_since s s').
Proof.
  intros Hlt Hout. simpl.
  destruct (run_leaves_out fuel events s id Hlt Hout) as (new & Hsent & Hnew & Hout').
  split; [done|]. unfold written_since. by rewrite Hsent, drop_app_length.
Qed.

Lemma departed_gets_nothing_witness :
  let events := [Message (wire (chat 1 "anyone there?" None));
                 Request "http://localhost:3000" "::5";
                 Message (wire (username_request 5 "bob"))] in
  let s' := (run 3 events carol_down_state).2 in
  (2 ∉ clientID <$> connectionArray s') ∧
  Forall (λ p, p.1 ≠ 2) (written_since carol_down_state s').
Proof.
  apply (departed_gets_nothing 3 _ carol_down_state 2).
  - by vm_compute.
  - apply (bool_decide_unpack _). by vm_compute.
Defined.

(** X12. Suffix numbers are used up by collisions only: an event changes
    [appendToMakeUnique] only if it is a username message that asks for a
    name some connection holds at that moment. *)
Theorem counter_moves_on_collision (fuel : nat) (e : event) (s : server) :
  appendToMakeUnique (step fuel e s).2 ≠ appendToMakeUnique s →
  ∃ utf8Data o,
    e = Message (Utf8Message utf8Data (Some (JsonObject o))) ∧
    msg_type o = Some "username" ∧
    isUsernameUnique_loop (connectionArray s) (msg_name o) = false.
Proof.
  destruct (step fuel e s) as [r s'] eqn:Hstep. simpl.
  destruct e as [origin address|message|id|id address reason description];
    simpl in Hstep.
  - rewrite on_request_run in Hstep. by injection Hstep as <- <-.
  - apply on_message_effects in Hstep as [_ Hcount]. intros Hne.
    destruct (Hcount Hne) as (utf8Data & o & -> & ? & ?). eauto.
  - rewrite transport_down_run in Hstep. by injection Hstep as <- <-.
  - unfold mbind, M_bind in Hstep. rewrite transport_down_run, on_close_run in Hstep.
    by injection Hstep as <- <-.
Qed.

Lemma counter_moves_on_collision_witness :
  ∃ utf8Data o,
    Message (wire (username_request 1 "bob"))
      = Message (Utf8Message utf8Data (Some (JsonObject o))) ∧
    msg_type o = Some "username" ∧
    isUsernameUnique_loop (connectionArray one_user_state) (msg_name o) = false.
Proof.
  apply (counter_moves_on_collision 2 _ one_user_state). by vm_compute.
Defined.

Lemma NaN_is_free (rest : list connection) : isUsernameUnique_loop rest JNaN = true.
Proof. apply isUsernameUnique_loop_true. intros c _. apply strict_eq_NaN. Qed.

(** X17. [isUsernameUnique] returns [false] exactly when the username of
    some connection is strictly equal to the name, and changes nothing.  So
    [NaN] is always unique, and a string is unique exactly when it is the
    display name of no connection. *)
Theorem isUsernameUnique_spec (name : jsval) (s : server) :
  ∃ unique,
    isUsernameUnique name s = (Normal unique, s) ∧
    (unique = false ↔
     ∃ c, c ∈ connectionArray s ∧ strict_eq (username c) name = true) ∧
    (name = JNaN → unique = true) ∧
    (∀ t, name = JString t →
          (unique = true ↔ t ∉ omap display_name (connectionArray s))).
Proof.
  eexists. split; [done|]. split_and!.
  - apply isUsernameUnique_loop_false.
  - intros ->. apply NaN_is_free.
  - intros t ->. split; [apply unique_not_elem_of|].
    intros Hout. apply isUsernameUnique_loop_true. intros c Hc.
    destruct (strict_eq (username c) (JString t)) eqn:Heq; [|done].
    destruct Hout. apply list_elem_of_omap. exists c. split; [done|].
    apply strict_eq_string in Heq. unfold display_name. by rewrite Heq.
Qed.

Lemma send_to_clients_frames msg s r s' :
  send_to_clients msg s = (r, s') →
  ∃ new, s' = sending s new ∧ Forall (λ p, p.2 = RelayFrame msg) new.
Proof.
  rewrite send_to_clients_run.
  destruct (directed_to msg) as [target|].
  - destruct (list_find _ _) as [[k c]|]; intros [= <- <-].
    + eexists. split; [done|]. by apply Forall_singleton.
    + exists []. split; [|done]. unfold sending. rewrite app_nil_r. by destruct s.
  - intros [= <- <-]. eexists. split; [done|].
    apply Forall_forall. by intros p (c & -> & _)%list_elem_of_fmap.
Qed.

(** X14. What goes out for a chat message from a registered connection:
    every frame the handler writes carries the message with the username the
    registry has for the connection its [id] names, whatever [name] the
    client wrote, with the text sanitised, and with [id], [type], [target]
    and the remaining properties as they came. *)
Theorem chat_relay_content (fuel : nat) (utf8Data : string) (o : message_object)
    (i : nat) (c : connection) (text : string) (s : server) :
  msg_type o = Some "message" →
  list_find (λ c, Some (clientID c) = msg_id o) (connectionArray s) = Some (i, c) →
  msg_text o = Some text →
  let s' := (on_message fuel (Utf8Message utf8Data (Some (JsonObject o))) s).2 in
  Forall (λ p, p.2 = RelayFrame
                 (JsonObject (MessageObject (msg_id o) (msg_type o) (username c)
                                (Some (Sanitize.strip text)) (msg_target o)
                                (msg_rest o))))
         (written_since s s').
Proof.
  intros Hty Hfind Htext. cbn zeta.
  rewrite (on_message_relay fuel utf8Data (JsonObject o) _ s
             (relayed_chat s o i c text Hty Hfind Htext)).
  destruct (send_to_clients _ _) as [r s'] eqn:Hsend.
  apply send_to_clients_frames in Hsend as (new & -> & Hnew).
  unfold written_since. simpl. by rewrite drop_app_length.
Qed.

Lemma chat_relay_content_witness :
  let o := MessageObject (Some 1) (Some "message") (JString "root")
             (Some "hi <b>all</b>") None "" in
  let s' := (on_message 3 (Utf8Message (json_text (JsonObject o)) (Some (JsonObject o)))
               two_users_state).2 in
  Forall (λ p, p.2 = RelayFrame
                 (JsonObject (MessageObject (msg_id o) (msg_type o)
                                (username (Connection 1 (JString "alice") true "::1"))
                                (Some (Sanitize.strip "hi <b>all</b>")) (msg_target o)
                                (msg_rest o))))
         (written_since two_users_state s').
Proof.
  apply (chat_relay_content 3 _
           (MessageObject (Some 1) (Some "message") (JString "root")
              (Some "hi <b>all</b>") None "")
           0 (Connection 1 (JString "alice") true "::1") "hi <b>all</b>"
           two_users_state); reflexivity.
Defined.

Lemma undefined_taken (rest : list connection) :
  isUsernameUnique_loop rest JUndefined = false ↔ JUndefined ∈ username <$> rest.
Proof.
  rewrite isUsernameUnique_loop_false. split.
  - intros (c & Hc & Heq%strict_eq_undefined). rewrite <- Heq.
    by apply list_elem_of_fmap_2.
  - intros (c & Heq & Hc)%list_elem_of_fmap. exists c. split; [done|].
    by rewrite <- Heq.
Qed.

(** X15. A username message without a [name], from a registered
    connection: while some connection has no name yet (the requester, as a
    rule), the missing name counts as taken, the requester's username
    becomes [NaN], one suffix number is used up ([appendToMakeUnique++],
    which adds one as long as the counter is below 2^53) and a
    [rejectusername] message carrying [NaN] is written before the user
    list; when every
    connection has a name, the requester loses its own and only the user
    list is written. *)
Theorem nameless_username_request (fuel : nat) (utf8Data : string)
    (o : message_object) (i : nat) (c : connection) (s : server) :
  msg_type o = Some "username" →
  msg_name o = JUndefined →
  list_find (λ c, Some (clientID c) = msg_id o) (connectionArray s) = Some (i, c) →
  (1 < fuel)%nat →
  let result := on_message fuel (Utf8Message utf8Data (Some (JsonObject o))) s in
  result.1 = Normal tt ∧
  (JUndefined ∈ username <$> connectionArray s →
   connectionArray result.2 = alter (set_username JNaN) i (connectionArray s) ∧
   appendToMakeUnique result.2 = js_incr (appendToMakeUnique s) ∧
   (appendToMakeUnique s < 2 ^ 53 →
    appendToMakeUnique result.2 = appendToMakeUnique s + 1) ∧
   written_since s result.2
     = (clientID c, RejectUsernameFrame (msg_id o) JNaN) :: roster result.2) ∧
  (JUndefined ∉ username <$> connectionArray s →
   connectionArray result.2 = alter (set_username JUndefined) i (connectionArray s) ∧
   appendToMakeUnique result.2 = appendToMakeUnique s ∧
   written_since s result.2 = roster result.2).
Proof.
  intros Hty Hname Hfind Hfuel.
  destruct fuel as [|[|fuel]]; [lia|lia|].
  cbn zeta. unfold on_message. unfold_monad. rewrite Hfind, Hty, Hname. simpl.
  unfold_monad.
  destruct (isUsernameUnique_loop (connectionArray s) JUndefined) eqn:Hu.
  - unfold_monad. rewrite sendUserListToAll_run. simpl.
    split_and!; [done| |].
    + intros Hin%undefined_taken. congruence.
    + intros _. split_and!; [done|done|].
      unfold written_since. simpl. by rewrite drop_app_length.
  - rewrite NaN_is_free. unfold_monad. rewrite sendUserListToAll_run. simpl.
    split_and!; [done| |].
    + intros _. split_and!; [done|done|by intros ?%js_incr_below|].
      unfold written_since. simpl. by rewrite <- app_assoc, drop_app_length.
    + intros Hout. destruct Hout. by apply undefined_taken.
Qed.

Lemma nameless_username_request_witness :
  let o := MessageObject (Some 4) (Some "username") JUndefined None None "" in
  let result :=
    on_message 2 (Utf8Message (json_text (JsonObject o)) (Some (JsonObject o)))
      carol_down_state in
  result.1 = Normal tt ∧
  (JUndefined ∈ username <$> connectionArray carol_down_state →
   connectionArray result.2
     = alter (set_username JNaN) 1%nat (connectionArray carol_down_state) ∧
   appendToMakeUnique result.2 = js_incr (appendToMakeUnique carol_down_state) ∧
   (appendToMakeUnique carol_down_state < 2 ^ 53 →
    appendToMakeUnique result.2 = appendToMakeUnique carol_down_state + 1) ∧
   written_since carol_down_state result.2
     = (clientID (Connection 4 JUndefined false "::4"),
        RejectUsernameFrame (msg_id o) JNaN) :: roster result.2) ∧
  (JUndefined ∉ username <$> connectionArray carol_down_state →
   connectionArray result.2
     = alter (set_username JUndefined) 1%nat (connectionArray carol_down_state) ∧
   appendToMakeUnique result.2 = appendToMakeUnique carol_down_state ∧
   written_since carol_down_state result.2 = roster result.2).
Proof.
  apply (nameless_username_request 2 _
           (MessageObject (Some 4) (Some "username") JUndefined None None "")
           1 (Connection 4 JUndefined false "::4") carol_down_state).
  - reflexivity.
  - reflexivity.
  - by vm_compute.
  - lia.
Defined.

(** ** Closing twice *)

(** X16. Right after a close event every connection in the registry is
    connected, and a second close event for the same connection leaves the
    registry as the first one left it. *)
Theorem close_twice (fuel : nat) (id : Z) (address address' : string)
    (reason reason' : Z) (description description' : option string) (s : server) :
  let s1 := (step fuel (Close id address reason description) s).2 in
  let s2 := (step fuel (Close id address' reason' description') s1).2 in
  Forall (λ c, connected c = true) (connectionArray s1) ∧
  connectionArray s2 = connectionArray s1.
Proof.
  simpl. unfold mbind, M_bind.
  rewrite !transport_down_run, !on_close_run. simpl.
  rewrite !filter_mark_down.
  assert (Forall (λ c, connected c ∧ clientID c ≠ id)
            (filter (λ c, connected c ∧ clientID c ≠ id) (connectionArray s)))
    as Hall.
  { apply Forall_forall. by intros c [? _]%list_elem_of_filter. }
  split.
  - eapply Forall_impl; [done|]. intros c [Hc _]. by apply Is_true_true.
  - by apply filter_all.
Qed.

(** ** The static file server *)

Lemma content_type_known ext :
  default "application/octet-stream" (mimeTypes !! ext) ∈ content_types ∧
  (mimeTypes !! ext = None →
   default "application/octet-stream" (mimeTypes !! ext) = "application/octet-stream").
Proof.
  split; [|by intros ->].
  destruct (mimeTypes !! ext) as [ct|] eqn:Hct; simpl.
  - apply elem_of_list_to_map_2 in Hct. unfold content_types.
    rewrite !elem_of_cons in Hct. rewrite !elem_of_cons.
    repeat (destruct Hct as [[= _ ->]|Hct]; [auto 10|]).
    by apply elem_of_nil in Hct.
  - unfold content_types. rewrite !elem_of_cons. auto 10.
Qed.

Lemma handleWebRequest_same_path node url url' s :
  served_path url = served_path url' →
  (handleWebRequest node url s).1 = (handleWebRequest node url' s).1.
Proof.
  unfold handleWebRequest, serveStaticFile. unfold_monad. intros ->.
  destruct (existsSync node (served_path url')); simpl; [|done].
  by destruct (readFile node (served_path url')).
Qed.

(** X13. Every web request is logged and answered once, and the chat state
    is not touched.  The answer is 404 with the text [404 Not Found] when the
    file does not exist, whatever reading it would give; 500 with the text
    [Internal Server Error] when it exists and cannot be read (a directory,
    say); and otherwise 200 with the file's content and one header,
    [Content-Type], whose value is one of the five types of the table or
    [application/octet-stream], the latter whenever the extension is not in
    the table.  The path [/] is answered as [/index.html] is. *)
Theorem web_response (node : runtime) (url : string) (s : server) :
  dotted_extname node →
  ∃ resp,
    handleWebRequest node url s
      = (Normal resp, logging s ("Received request for " +:+ url)) ∧
    (existsSync node (served_path url) = false →
     resp = Response 404 [] "404 Not Found") ∧
    (existsSync node (served_path url) = true →
     readFile node (served_path url) = None →
     resp = Response 500 [] "Internal Server Error") ∧
    (∀ content,
       existsSync node (served_path url) = true →
       readFile node (served_path url) = Some content →
       ∃ contentType,
         resp = Response 200 [("Content-Type", contentType)] content ∧
         contentType ∈ content_types ∧
         (mimeTypes !! extname node (served_path url) = None →
          contentType = "application/octet-stream")) ∧
    (handleWebRequest node "/" s).1 = (handleWebRequest node "/index.html" s).1.
Proof.
  intros _.
  pose proof (handleWebRequest_same_path node "/" "/index.html" s eq_refl) as Hroot.
  revert Hroot. generalize (handleWebRequest node "/" s).1.
  generalize (handleWebRequest node "/index.html" s).1. intros answer answer' Hroot.
  unfold handleWebRequest, serveStaticFile. unfold_monad.
  destruct (existsSync node (served_path url)) eqn:Hex; simpl.
  - destruct (readFile node (served_path url)) as [content|] eqn:Hread;
      unfold_monad; eexists; (split; [done|]); split_and!; try done.
    intros content' _ [= <-]. eexists. split; [done|]. apply content_type_known.
  - eexists. split; [done|]. split_and!; done.
Qed.

Lemma web_response_witness :
  ∃ resp,
    handleWebRequest demo_runtime "/" (initial 1)
      = (Normal resp, logging (initial 1) ("Received request for " +:+ "/")) ∧
    (existsSync demo_runtime (served_path "/") = false →
     resp = Response 404 [] "404 Not Found") ∧
    (existsSync demo_runtime (served_path "/") = true →
     readFile demo_runtime (served_path "/") = None →
     resp = Response 500 [] "Internal Server Error") ∧
    (∀ content,
       existsSync demo_runtime (served_path "/") = true →
       readFile demo_runtime (served_path "/") = Some content →
       ∃ contentType,
         resp = Response 200 [("Content-Type", contentType)] content ∧
         contentType ∈ content_types ∧
         (mimeTypes !! extname demo_runtime (served_path "/") = None →
          contentType = "application/octet-stream")) ∧
    (handleWebRequest demo_runtime "/" (initial 1)).1
      = (handleWebRequest demo_runtime "/index.html" (initial 1)).1.
Proof.
  apply (web_response demo_runtime "/" (initial 1)).
  intros p. simpl. repeat case_bool_decide.
  - right. by exists "html".
  - right. by exists "js".
  - by left.
Defined.

Example web_page :
  (handleWebRequest demo_runtime "/" (initial 1)).1
    = Normal (Response 200 [("Content-Type", "text/html")] "<!doctype html>") ∧
  (handleWebRequest demo_runtime "/chatclient.js" (initial 1)).1
    = Normal (Response 500 [] "Internal Server Error") ∧
  (handleWebRequest demo_runtime "/favicon.ico" (initial 1)).1
    = Normal (Response 404 [] "404 Not Found").
Proof. split_and!; by vm_compute. Qed.

(** ** Connections that have gone down *)

Lemma mark_down_usernames id (rest : list connection) :
  username <$> (mark_down id <$> rest) = username <$> rest.
Proof.
  induction rest as [|c rest IH]; csimpl; [done|]. rewrite IH.
  unfold mark_down. by destruct (bool_decide _).
Qed.

(** X18. The server does not look at [connected] before it writes: a
    connection that has gone down, and whose close event has not come yet,
    keeps its place, its identifier and its username in the registry, and a
    message without a target that comes in meanwhile is still written to
    it. *)
Theorem lost_still_served (fuel : nat) (id : Z) (utf8Data : string)
    (msg msg' : json) (s : server) :
  let s1 := (step fuel (Lost id) s).2 in
  let s2 := (on_message fuel (Utf8Message utf8Data (Some msg)) s1).2 in
  id ∈ clientID <$> connectionArray s →
  relayed_as s1 msg msg' →
  directed_to msg = None →
  clientID <$> connectionArray s1 = clientID <$> connectionArray s ∧
  username <$> connectionArray s1 = username <$> connectionArray s ∧
  (∀ c, c ∈ connectionArray s1 → clientID c = id → connected c = false) ∧
  (id, RelayFrame msg') ∈ written_since s1 s2.
Proof.
  cbn zeta. cbn [step]. rewrite transport_down_run. cbn [snd connectionArray].
  intros Hid Hrelay Hall. split_and!.
  - apply mark_down_ids.
  - apply mark_down_usernames.
  - intros c (c0 & -> & _)%list_elem_of_fmap. unfold mark_down.
    case_bool_decide; [done|]. simpl. by intros.
  - rewrite (on_message_relay fuel utf8Data msg msg' _ Hrelay), send_to_clients_run.
    rewrite (directed_to_relayed _ msg msg' Hrelay), Hall.
    unfold written_since. simpl. rewrite drop_app_length.
    rewrite <- (mark_down_ids id) in Hid.
    apply list_elem_of_fmap in Hid as (c & -> & Hc).
    unfold deliveries. apply list_elem_of_fmap. by exists c.
Qed.

Lemma lost_still_served_witness :
  let msg := chat 1 "still there?" None in
  let msg' := JsonObject (MessageObject (Some 1) (Some "message") (JString "alice")
                            (Some "still there?") None "") in
  let s1 := (step 3 (Lost 2) two_users_state).2 in
  let s2 := (on_message 3 (Utf8Message (json_text msg) (Some msg)) s1).2 in
  clientID <$> connectionArray s1 = clientID <$> connectionArray two_users_state ∧
  username <$> connectionArray s1 = username <$> connectionArray two_users_state ∧
  (∀ c, c ∈ connectionArray s1 → clientID c = 2 → connected c = false) ∧
  (2, RelayFrame msg') ∈ written_since s1 s2.
Proof.
  apply (lost_still_served 3 2 _ (chat 1 "still there?" None) _ two_users_state).
  - apply (bool_decide_unpack _). by vm_compute.
  - apply (relayed_chat _
             (MessageObject (Some 1) (Some "message") JUndefined
                (Some "still there?") None "")
             0 (Connection 1 (JString "alice") true "::1") "still there?");
      by vm_compute.
  - reflexivity.
Defined.
